(** * string2shape: the C entry points of obj2string (WFObjectToString.cpp)

    A shallow embedding of the exported functions of
    [WFObjectToString.cpp] (latest revision: [WFObjectToString],
    [WFObjectToStrings], [WFObjectRandomVariations], [fixVariation],
    [StringToWFObject]; first revision: [testGraphConstruction]) and of
    the parts of the C++ standard library they rely on
    ([std::string], [std::getline], [operator>>] on [unsigned int]).

    The classes that the entry points call into ([WFObject],
    [CollisionDetector], [GrammarCheck], [Wiggle],
    [GraphToStringConverter], [VariationGenerator], [WFObjectGenerator],
    the exporters) live in other files of the repository; they are the
    operations of the class [Backend], and every definition and theorem
    about an entry point is stated for an arbitrary backend. *)

From Stdlib Require Import ZArith List Ascii String Lia Bool.
From stdpp Require Import base list gmap.

Open Scope Z_scope.

(** ** Machine integers *)

Module Word.

(** [unsigned int] is 32 bits wide, [size_t] 64 bits wide. *)
Definition uint_modulus : Z := 2 ^ 32.
Definition size_modulus : Z := 2 ^ 64.

Definition UINT_MAX : Z := uint_modulus - 1.

Definition to_uint (z : Z) : Z := z mod uint_modulus.
Definition to_size (z : Z) : Z := z mod size_modulus.

Definition uint_add (a b : Z) : Z := to_uint (a + b).
Definition size_add (a b : Z) : Z := to_size (a + b).
Definition size_sub (a b : Z) : Z := to_size (a - b).

(** [(unsigned int)-1], the label of an edge of unknown type. *)
Definition sentinel : Z := to_uint (-1).

End Word.

(** ** [std::string] *)

Module StdString.

(** A [std::string] is its sequence of characters. *)
Definition t : Type := list ascii.

Definition of_literal (s : string) : t := list_ascii_of_string s.

Definition size (s : t) : Z := Z.of_nat (length s).

Definition npos : Z := Word.size_modulus - 1.

Definition newline : ascii := ascii_of_nat 10.
Definition NUL : ascii := ascii_of_nat 0.

Definition is_one_of (chars : t) (c : ascii) : bool :=
  existsb (Ascii.eqb c) chars.

(** [s.find_first_of(chars)], counting positions from [i]. *)
Fixpoint find_first_of_from (chars s : t) (i : Z) : Z :=
  match s with
  | [] => npos
  | c :: r => if is_one_of chars c then i else find_first_of_from chars r (i + 1)
  end.

Definition find_first_of (s chars : t) : Z := find_first_of_from chars s 0.

(** [s.find_last_of(chars)]: [found] is the last hit before position [i]. *)
Fixpoint find_last_of_from (chars s : t) (i found : Z) : Z :=
  match s with
  | [] => found
  | c :: r => find_last_of_from chars r (i + 1) (if is_one_of chars c then i else found)
  end.

Definition find_last_of (s chars : t) : Z := find_last_of_from chars s 0 npos.

(** [s.substr(pos, count)] for [pos <= s.size()]: the characters
    [pos, pos + min(count, size - pos))]. The library throws
    [std::out_of_range] when [pos > s.size()]; no call of this file
    does (see [find_last_of_lt] for the one call with [pos <> 0]). *)
Definition substr (s : t) (pos count : Z) : t :=
  take (Z.to_nat (Z.min count (size s - pos))) (drop (Z.to_nat pos) s).

(** What [strcpy(dst, s.c_str())] copies: the characters before the
    first NUL. *)
Fixpoint c_str (s : t) : t :=
  match s with
  | [] => []
  | c :: r => if Ascii.eqb c NUL then [] else c :: c_str r
  end.

End StdString.


(** ** Input streams: [std::getline] and [operator>>] *)

Module IStream.

(** The state of a [std::stringstream] that is only read: the characters
    not yet consumed. *)
Definition t : Type := list ascii.

(** [std::getline(ss, line, '\n')]: the characters up to the next line
    break, which is consumed and dropped; at the end of the input the
    line is empty (the call fails and leaves the freshly constructed
    [line] as it is). Returns the line and the rest of the stream. *)
Fixpoint getline (ss : t) : StdString.t * t :=
  match ss with
  | [] => ([], [])
  | c :: r =>
      if Ascii.eqb c StdString.newline then ([], r)
      else let '(line, rest) := getline r in (c :: line, rest)
  end.

(** [isspace] in the "C" locale: space and the controls 9 to 13. *)
Definition is_space (c : ascii) : bool :=
  let n := nat_of_ascii c in
  Nat.eqb n 32 || (Nat.leb 9 n && Nat.leb n 13).

Fixpoint skip_ws (s : t) : t :=
  match s with
  | [] => []
  | c :: r => if is_space c then skip_ws r else s
  end.

Definition digit (c : ascii) : option Z :=
  let n := Z.of_nat (nat_of_ascii c) in
  if (48 <=? n) && (n <=? 57) then Some (n - 48) else None.

(** The longest run of decimal digits and its value. *)
Fixpoint read_digits (s : t) (acc : Z) : Z * t :=
  match s with
  | [] => (acc, [])
  | c :: r =>
      match digit c with
      | Some d => read_digits r (10 * acc + d)
      | None => (acc, s)
      end
  end.

(** An optional sign in front of the digits. *)
Definition read_sign (s : t) : bool * t :=
  match s with
  | c :: r =>
      if Ascii.eqb c "-"%char then (true, r)
      else if Ascii.eqb c "+"%char then (false, r)
      else (false, s)
  | [] => (false, [])
  end.

(** [ss >> x] for [unsigned int x], decimal base: skip white space, read
    an optional sign and the digits. The extraction fails ([None], the
    stream converts to [false]) when no digit is found or when the digits
    exceed [UINT_MAX]; a leading minus negates the value in
    [unsigned int]. On success: the value and the rest of the stream. *)
Definition extract_uint (ss : t) : option (Z * t) :=
  let '(negative, s) := read_sign (skip_ws ss) in
  match s with
  | [] => None
  | c :: _ =>
      match digit c with
      | None => None
      | Some _ =>
          let '(v, rest) := read_digits s 0 in
          if v <=? Word.UINT_MAX
          then Some (if negative then Word.to_uint (- v) else v, rest)
          else None
      end
  end.

(** [while (ss1 >> node_1 && ss2 >> node_2 && ss3 >> edge_type) body],
    with the state [st] that [body] updates. [&&] evaluates from the
    left and stops at the first failed extraction. Every turn consumes
    a character of [ss1], so [fuel] above its length is never used up
    (see [while_triples_fuel]). *)
Fixpoint while_triples_fuel {S : Type} (body : Z -> Z -> Z -> S -> S)
    (fuel : nat) (ss1 ss2 ss3 : t) (st : S) : S :=
  match fuel with
  | O => st
  | Datatypes.S fuel' =>
      match extract_uint ss1 with
      | None => st
      | Some (node_1, ss1') =>
          match extract_uint ss2 with
          | None => st
          | Some (node_2, ss2') =>
              match extract_uint ss3 with
              | None => st
              | Some (edge_type, ss3') =>
                  while_triples_fuel body fuel' ss1' ss2' ss3'
                                     (body node_1 node_2 edge_type st)
              end
          end
      end
  end.

Definition while_triples {S : Type} (body : Z -> Z -> Z -> S -> S)
    (ss1 ss2 ss3 : t) (st : S) : S :=
  while_triples_fuel body (Datatypes.S (length ss1)) ss1 ss2 ss3 st.

(** The triples the loop condition extracts, in order. *)
Definition triples (ss1 ss2 ss3 : t) : list (Z * Z * Z) :=
  while_triples (fun n1 n2 ty acc => acc ++ [(n1, n2, ty)]) ss1 ss2 ss3 [].

End IStream.

(** ** The compact adjacency representation *)

Module Graph.

(** The three arrays of [Graph] that the entry points read
    ([graph.intervals], [graph.adjacencyKeys], [graph.adjacencyVals]);
    all hold [unsigned int]. *)
Record t : Type := Build {
  intervals : list Z;
  adjacencyKeys : list Z;
  adjacencyVals : list Z
}.

(** Modelled from the spec: [Graph::numNodes] and [Graph::numEdges]
    (Graph.h is not among the sources). The offset array has one entry
    more than there are nodes; the key and value arrays are parallel,
    one entry per stored pair. *)
Definition numNodes (g : t) : nat := Nat.pred (length (intervals g)).
Definition numEdges (g : t) : nat := length (adjacencyKeys g).

(** Entry [(i, j)] of a dense row-major [n] x [n] matrix. *)
Definition entry (n : nat) (matrix : list Z) (i j : nat) : option Z :=
  matrix !! (i * n + j)%nat.

Definition symmetric (n : nat) (matrix : list Z) : Prop :=
  forall i j, (i < n)%nat -> (j < n)%nat -> entry n matrix i j = entry n matrix j i.

Definition zero_one (matrix : list Z) : Prop :=
  Forall (fun x => x = 0 \/ x = 1) matrix.

(** The cells of the matrix that hold a 1, in row-major order. *)
Definition ones (n : nat) (matrix : list Z) : list nat :=
  filter (fun p => matrix !! p = Some 1) (seq 0 (n * n)).

(** Modelled from the spec: [Graph::fromAdjacencyMatrix(matrix, n)]
    (Graph.cpp is not among the sources). Every 1 at [(i, j)] becomes
    the stored pair key [i], value [j]; [intervals] has [n + 1]
    entries, entry [i] being the number of stored pairs whose key is
    below [i]. *)
Definition fromAdjacencyMatrix (matrix : list Z) (n : nat) : t :=
  let cells := ones n matrix in
  let keys := map (fun p => Z.of_nat (p / n)) cells in
  {| intervals :=
       map (fun i => Z.of_nat (length (filter (fun k => k < Z.of_nat i) keys)))
           (seq 0 (S n));
     adjacencyKeys := keys;
     adjacencyVals := map (fun p => Z.of_nat (p mod n)) cells |}.

(** One stored pair written into the dense matrix. *)
Definition scatter (size : nat) (matrix : list Z) (kv : Z * Z) : list Z :=
  <[ (Z.to_nat (fst kv) * size + Z.to_nat (snd kv))%nat := 1 ]> matrix.

(** Modelled from the spec: [Graph::toAdjacencyMatrix(matrix, size)]
    (Graph.cpp is not among the sources). Both arguments are outputs:
    [size] is the number of nodes, [matrix] the dense [size] x [size]
    matrix with a 1 at [(key, value)] of every stored pair and 0
    elsewhere. *)
Definition toAdjacencyMatrix (g : t) : list Z * nat :=
  let size := numNodes g in
  (foldl (scatter size) (replicate (size * size) 0)
         (zip (adjacencyKeys g) (adjacencyVals g)),
   size).

(** Writing 1 at a list of cells. *)
Definition set_cells (matrix : list Z) (cells : list nat) : list Z :=
  foldl (fun m p => <[ p := 1 ]> m) matrix cells.

End Graph.

(** ** The graph-construction self test of the first revision *)

Module GraphSelfTest.

Section WithRand.

(** [rand k] is what the [k]-th call of [rand()] returns. *)
Variable RAND_MAX : Z.
Variable rand : nat -> Z.

(** [bool makeEdge = rand() / RAND_MAX > 0.5f]: the division is an
    [int] division, and an integer exceeds one half when it is at
    least 1. *)
Definition makeEdge (k : nat) : bool := 1 <=? Z.quot (rand k) RAND_MAX.

(** The body of the inner loop at [(i, j)]; the state is the host
    matrix and the number of calls of [rand()] made so far. *)
Definition fill_cell (n i : nat) (st : list Z * nat) (j : nat) : list Z * nat :=
  (if makeEdge (snd st)
   then <[ (i * n + j)%nat := 1 ]> (<[ (j * n + i)%nat := 1 ]> (fst st))
   else fst st,
   S (snd st)).

(** [for (j = 0; j < i; ++j)] *)
Definition fill_row (n : nat) (st : list Z * nat) (i : nat) : list Z * nat :=
  foldl (fill_cell n i) st (seq 0 i).

(** [for (i = 0; i < aGraphSize; ++i)] over a zeroed matrix of
    [n * n] entries. *)
Definition fill_matrix (n : nat) : list Z :=
  fst (foldl (fill_row n) (replicate (n * n) 0, 0%nat) (seq 0 n)).

(** [aGraphSize] is an [int], and so is the product
    [aGraphSize * aGraphSize] that sizes the matrix and bounds the
    comparison loop: it is defined as long as it does not exceed
    [INT_MAX], that is up to [aGraphSize] = 46340. *)
Definition INT_MAX : Z := 2147483647.

Definition fits_int (n : nat) : bool := Z.of_nat n * Z.of_nat n <=? INT_MAX.


(** [testGraphConstruction(aGraphSize)] for [aGraphSize = n]: the
    positions reported on [std::cerr] as wrong, and the returned
    value; [None] when the [int] product overflows. *)
Definition testGraphConstruction (n : nat) : option (list nat * Z) :=
  if fits_int n then
    let host := fill_matrix n in
    let testGraph := Graph.fromAdjacencyMatrix host n in
    let '(device, _) := Graph.toAdjacencyMatrix testGraph in
    Some (filter (fun i => device !! i <> host !! i) (seq 0 (n * n)), 0)
  else None.

Definition well_shaped (n : nat) (st : list Z * nat) : Prop :=
  length (fst st) = (n * n)%nat /\ Graph.zero_one (fst st).

End WithRand.

End GraphSelfTest.

(** ** The classes behind the entry points *)

(** What the entry points use of the classes whose code is in other
    files. Objects that a method updates in place are passed in and
    returned. *)
Class Backend : Type := {
  WFObject : Type;
  (** [obj.read(aFilename)], on the files present when the entry point
      is called *)
  read : StdString.t -> WFObject;
  (** [obj.objects[nodeId].x] and [obj.faces[faceId].material] *)
  objects_x : WFObject -> nat -> Z;
  faces_material : WFObject -> Z -> Z;
  (** [detector.computeCollisionGraph(obj, 0.0f)] *)
  computeCollisionGraph : WFObject -> Graph.t;
  (** [graph.isConnected()] *)
  isConnected : Graph.t -> bool;
  (** [graph.fromAdjacencyList(numNodes, flag)] on the given
      [adjacencyKeys] and [adjacencyVals] *)
  fromAdjacencyList : list Z -> list Z -> Z -> bool -> Graph.t;
  (** [GrammarCheck]: a fresh one, [init] and [check] *)
  GrammarCheck : Type;
  GrammarCheck_new : GrammarCheck;
  GrammarCheck_init : GrammarCheck -> WFObject -> list Z -> list Z -> GrammarCheck;
  GrammarCheck_check : GrammarCheck -> list Z -> list Z -> list Z -> bool;
  (** [Wiggle]: a fresh one, [init], one pass (which moves the parts of
      the object and sets [numCorrections]) and the two fields read *)
  Wiggle : Type;
  Wiggle_new : Wiggle;
  Wiggle_init : Wiggle -> WFObject -> Graph.t -> Wiggle;
  fixRelativeTransformations : Wiggle -> WFObject -> Graph.t -> Wiggle * WFObject;
  numCorrections : Wiggle -> Z;
  debugOutputLocalFrames : Wiggle -> bool;
  (** [getDirName(aFileName)] *)
  getDirName : StdString.t -> StdString.t;
  (** [GraphToStringConverter]: a fresh one, and one call, which
      returns the structural text and the node-id text and advances the
      converter's random source *)
  Converter : Type;
  Converter_new : Converter;
  convert : Converter -> WFObject -> Graph.t -> (StdString.t * StdString.t) * Converter;
  (** the text that a [VariationGenerator] with
      [writeVariationGraphs = false] and [writeVariations = true]
      returns at epsilon [0.0f] *)
  generateVariations :
    StdString.t -> StdString.t -> WFObject -> WFObject -> Graph.t -> Graph.t -> StdString.t;
  (** [WFObjectGenerator()(obj1, obj2, graph1, graph2, graph3,
      edgeTypes1, edgeTypes2, edgeTypes3)] *)
  generateObject :
    WFObject -> WFObject -> Graph.t -> Graph.t -> Graph.t ->
    list Z -> list Z -> list Z -> WFObject
}.

(** ** The retained output buffer *)

Module Memory.

(** A [char *] is [NULL], the address of a string literal or the
    address of a block obtained from [new char[]]. *)
Inductive char_ptr : Type :=
| Null
| StringLiteral (s : StdString.t)
| Block (address : nat).

(** The part of the process state that the entry points share: the
    global [outputString] ([None] is [NULL]), the live blocks with the
    C string each holds, and the next address the allocator hands out. *)
Record Process : Type := {
  outputString : option nat;
  heap : gmap nat StdString.t;
  next_address : nat
}.

(** The state at program start: [char * outputString = NULL]. *)
Definition start : Process :=
  {| outputString := None; heap := ∅; next_address := 0 |}.

(** [if (outputString != NULL) free(outputString);] *)
Definition free_outputString (p : Process) : Process :=
  match outputString p with
  | None => p
  | Some b =>
      {| outputString := Some b; heap := delete b (heap p);
         next_address := next_address p |}
  end.

(** [outputString = new char[result.length() + 1];
     strcpy(outputString, result.c_str());]
    The new block gets the address [next_address], which is not live.
    A C++ allocator may as well hand out the address of a block that
    was freed before; the model picks one allocator among the possible
    ones, so it supports statements about live blocks and their texts,
    not statements that a new address differs from a freed one. *)
Definition replace_outputString (result : StdString.t) (p : Process) : Process :=
  {| outputString := Some (next_address p);
     heap := <[ next_address p := StdString.c_str result ]> (heap p);
     next_address := S (next_address p) |}.

(** [return outputString;] *)
Definition return_outputString (p : Process) : char_ptr :=
  match outputString p with
  | Some b => Block b
  | None => Null
  end.

(** The text a returned pointer refers to. *)
Definition text_at (p : Process) (ptr : char_ptr) : option StdString.t :=
  match ptr with
  | Null => None
  | StringLiteral s => Some s
  | Block b => heap p !! b
  end.

(** A call that takes the process from [p] to [p'] frees before it
    replaces: a block that [outputString] pointed to and no longer does
    has been freed. *)
Definition frees_before_replacing (p p' : Process) : Prop :=
  forall b, outputString p = Some b -> outputString p' <> Some b ->
            heap p' !! b = None.

(** The allocator has not yet handed out [next_address] or anything
    above it. *)
Definition well_formed (p : Process) : Prop :=
  (forall b, is_Some (heap p !! b) -> (b < next_address p)%nat) /\
  (forall b, outputString p = Some b -> (b < next_address p)%nat).

End Memory.

(** ** The entry points of the latest revision *)

Section EntryPoints.

Context `{B : Backend}.

Import Memory.

(** What an entry point writes to the file system. *)
Inductive Effect : Type :=
| CollisionGraphFile (aFilename : StdString.t) (obj : WFObject) (graph : Graph.t)
| ObjectFile (obj : WFObject) (path : StdString.t)
| VariationFiles (aFileName1 aFileName2 : StdString.t).

(** *** [WFObjectToString] *)

Definition WFObjectToString (aFilename : StdString.t) (p : Process)
  : char_ptr * Process * list Effect :=
  let obj := read aFilename in
  let graph := computeCollisionGraph obj in
  let exported := [CollisionGraphFile aFilename obj graph] in
  let result := StdString.c_str (fst (fst (convert Converter_new obj graph))) in
  let result :=
    StdString.substr result 0
      (StdString.find_first_of result [StdString.newline]) in
  let p := free_outputString p in
  let p := replace_outputString result p in
  (return_outputString p, p, exported).

(** *** [WFObjectToStrings] *)

(** One turn of [for (i = 0; i < 10; ++i)]: a new sample, appended to
    both texts. *)
Definition resample (obj : WFObject) (graph : Graph.t)
    (st : (StdString.t * StdString.t) * Converter) (i : nat)
  : (StdString.t * StdString.t) * Converter :=
  let '(new_sample, converter) := convert (snd st) obj graph in
  ((fst (fst st) ++ fst new_sample, snd (fst st) ++ snd new_sample), converter).

(** [strings_nodeIds] after the loop. *)
Definition sample_texts (obj : WFObject) (graph : Graph.t) : StdString.t * StdString.t :=
  fst (foldl (resample obj graph) (convert Converter_new obj graph) (seq 0 10)).

(** [strings_nodeIds.second.substr(0u, strings_nodeIds.second.find_last_of("\n"))] *)
Definition strip_last_line_break (nodeIds : StdString.t) : StdString.t :=
  StdString.substr nodeIds 0 (StdString.find_last_of nodeIds [StdString.newline]).

Definition WFObjectToStrings (aFilename : StdString.t) (aAppendNodeIds : bool)
    (p : Process) : char_ptr * Process * list Effect :=
  let obj := read aFilename in
  let graph := computeCollisionGraph obj in
  let exported := [CollisionGraphFile aFilename obj graph] in
  if negb (isConnected graph) then (StringLiteral [], p, exported)
  else
    let strings_nodeIds := sample_texts obj graph in
    let result := fst strings_nodeIds in
    let result :=
      if aAppendNodeIds
      then result ++ strip_last_line_break (snd strings_nodeIds)
      else result in
    let p := free_outputString p in
    let p := replace_outputString result p in
    (return_outputString p, p, exported).

(** *** [WFObjectRandomVariations] *)

Definition WFObjectRandomVariations (aFileName1 aFileName2 : StdString.t)
    (p : Process) : char_ptr * Process * list Effect :=
  let obj1 := read aFileName1 in
  let obj2 := read aFileName2 in
  let graph1 := computeCollisionGraph obj1 in
  let graph2 := computeCollisionGraph obj2 in
  let result := generateVariations aFileName1 aFileName2 obj1 obj2 graph1 graph2 in
  let p := replace_outputString result p in
  (return_outputString p, p, [VariationFiles aFileName1 aFileName2]).

(** *** [fixVariation] *)

(** [nodeTypes], filled by [for (nodeId = 0; nodeId < graph3.numNodes(); ++nodeId)]. *)
Definition nodeTypes_of (obj3 : WFObject) (graph3 : Graph.t) : list Z :=
  map (fun nodeId =>
         let faceId := Word.to_size (objects_x obj3 nodeId) in
         let materialId := Word.to_size (faces_material obj3 faceId) in
         Word.to_uint materialId)
      (seq 0 (Graph.numNodes graph3)).

(** [for (i = 0; i < 128u; ++i) { wiggle.fixRelativeTransformations(obj3, graph3);
     if (wiggle.numCorrections == 0u) break; }]
    with [remaining] turns to go. Besides the wiggle and the object, the
    [numCorrections] that each executed pass left, in order. *)
Fixpoint wiggle_loop (remaining : nat) (wiggle : Wiggle) (obj3 : WFObject)
    (graph3 : Graph.t) : Wiggle * WFObject * list Z :=
  match remaining with
  | O => (wiggle, obj3, [])
  | S remaining' =>
      let '(wiggle, obj3) := fixRelativeTransformations wiggle obj3 graph3 in
      if numCorrections wiggle =? 0 then (wiggle, obj3, [numCorrections wiggle])
      else
        let '(wiggle', obj3', corrections) :=
          wiggle_loop remaining' wiggle obj3 graph3 in
        (wiggle', obj3', numCorrections wiggle :: corrections)
  end.

(** The name under which the repaired object is written, from
    [aOutFileName]. *)
Definition fixed_file_name (aOutFileName : StdString.t) : StdString.t :=
  let outFileName := aOutFileName in
  let separators := StdString.of_literal "/\" in
  if StdString.find_last_of outFileName separators =? StdString.npos
  then StdString.substr outFileName 0 (Word.size_sub (StdString.size outFileName) 5)
  else
    StdString.substr outFileName
      (Word.size_add (StdString.find_last_of outFileName separators) 1)
      (Word.size_sub
         (Word.size_sub (StdString.size outFileName)
                        (StdString.find_last_of outFileName separators))
         5).

(** What a call of [fixVariation] leaves behind: the returned status,
    [obj3] at the return, the [numCorrections] of the Wiggle passes
    executed, and the files written. *)
Record Repair : Type := {
  status : Z;
  repaired : WFObject;
  passes : list Z;
  written : list Effect
}.

Definition fixVariation (aFileName1 aFileName2 aFileName3 aOutFileName : StdString.t)
  : Repair :=
  let obj1 := read aFileName1 in
  let obj2 := read aFileName2 in
  let obj3 := read aFileName3 in
  let graph1 := computeCollisionGraph obj1 in
  let graph2 := computeCollisionGraph obj2 in
  let graph3 := computeCollisionGraph obj3 in
  let grammarCheck := GrammarCheck_new in
  let grammarCheck :=
    GrammarCheck_init grammarCheck obj1
      (Graph.intervals graph1) (Graph.adjacencyVals graph1) in
  let grammarCheck :=
    GrammarCheck_init grammarCheck obj2
      (Graph.intervals graph2) (Graph.adjacencyVals graph2) in
  let nodeTypes := nodeTypes_of obj3 graph3 in
  let hostIntervals := Graph.intervals graph3 in
  let hostNbrIds := Graph.adjacencyVals graph3 in
  if negb (GrammarCheck_check grammarCheck hostIntervals hostNbrIds nodeTypes)
  then {| status := 1; repaired := obj3; passes := []; written := [] |}
  else
    let wiggle := Wiggle_new in
    let wiggle := Wiggle_init wiggle obj1 graph1 in
    let wiggle := Wiggle_init wiggle obj2 graph2 in
    let '(wiggle, obj3, corrections) := wiggle_loop 128 wiggle obj3 graph3 in
    let modifiedGraph := computeCollisionGraph obj3 in
    let hostIntervals := Graph.intervals modifiedGraph in
    let hostNbrIds := Graph.adjacencyVals modifiedGraph in
    if debugOutputLocalFrames wiggle
       || GrammarCheck_check grammarCheck hostIntervals hostNbrIds nodeTypes
    then
      let outFileName := fixed_file_name aOutFileName in
      let objDir := getDirName aFileName3 in
      let fixedFilePath := objDir ++ outFileName in
      {| status := 0; repaired := obj3; passes := corrections;
         written := [ObjectFile obj3 fixedFilePath] |}
    else {| status := 2; repaired := obj3; passes := corrections; written := [] |}.

(** *** [StringToWFObject] *)

(** [for (edgeId = 0u; edgeId < graph.numEdges(); ++edgeId)
      if (keys[edgeId] == node_1 && vals[edgeId] == node_2)
        { edgeTypes[edgeId] = edge_type; break; }]
    from [edgeId] on, with [remaining] turns to go. *)
Fixpoint label_first_match (keys vals : list Z) (node_1 node_2 edge_type : Z)
    (remaining edgeId : nat) (edgeTypes : list Z) : list Z :=
  match remaining with
  | O => edgeTypes
  | S remaining' =>
      if bool_decide (keys !! edgeId = Some node_1)
         && bool_decide (vals !! edgeId = Some node_2)
      then <[ edgeId := edge_type ]> edgeTypes
      else label_first_match keys vals node_1 node_2 edge_type
                             remaining' (S edgeId) edgeTypes
  end.

(** The edge types of an exemplar: all unknown, then one scan of the
    exemplar's stored pairs for every triple read from the three lines. *)
Definition label_edges (graph : Graph.t)
    (NodesStr_1 NodesStr_2 EdgeTypeStr : StdString.t) : list Z :=
  let keys := Graph.adjacencyKeys graph in
  let vals := Graph.adjacencyVals graph in
  let edgeTypes := replicate (Graph.numEdges graph) Word.sentinel in
  IStream.while_triples
    (fun node_1 node_2 edge_type edgeTypes =>
       label_first_match keys vals node_1 node_2 edge_type
                         (Graph.numEdges graph) 0 edgeTypes)
    NodesStr_1 NodesStr_2 EdgeTypeStr edgeTypes.

(** The locals that the third loop fills. *)
Record Target : Type := {
  keys3 : list Z;
  vals3 : list Z;
  edgeTypes3 : list Z;
  max_node_id : Z
}.

Definition push_triple (node_1 node_2 edge_type : Z) (tg : Target) : Target :=
  {| keys3 := keys3 tg ++ [node_1];
     vals3 := vals3 tg ++ [node_2];
     edgeTypes3 := edgeTypes3 tg ++ [edge_type];
     max_node_id := Z.max (Z.max (max_node_id tg) node_1) node_2 |}.

Definition read_target (NodesStr_1 NodesStr_2 EdgeTypeStr : StdString.t) : Target :=
  IStream.while_triples push_triple NodesStr_1 NodesStr_2 EdgeTypeStr
    {| keys3 := []; vals3 := []; edgeTypes3 := []; max_node_id := 0 |}.

(** [graph3] after [graph3.fromAdjacencyList(max_node_id + 1, false)]. *)
Definition target_graph (tg : Target) : Graph.t :=
  fromAdjacencyList (keys3 tg) (vals3 tg) (Word.uint_add (max_node_id tg) 1) false.

(** The nine lines that [StringToWFObject] takes from [aInputString]. *)
Record Lines : Type := {
  NodesStr_1_1 : StdString.t; NodesStr_1_2 : StdString.t; EdgeTypeStr_1 : StdString.t;
  NodesStr_2_1 : StdString.t; NodesStr_2_2 : StdString.t; EdgeTypeStr_2 : StdString.t;
  NodesStr_3_1 : StdString.t; NodesStr_3_2 : StdString.t; EdgeTypeStr_3 : StdString.t
}.

Definition read_lines (aInputString : StdString.t) : Lines :=
  let ss := aInputString in
  let '(l11, ss) := IStream.getline ss in
  let '(l12, ss) := IStream.getline ss in
  let '(t1, ss) := IStream.getline ss in
  let '(l21, ss) := IStream.getline ss in
  let '(l22, ss) := IStream.getline ss in
  let '(t2, ss) := IStream.getline ss in
  let '(l31, ss) := IStream.getline ss in
  let '(l32, ss) := IStream.getline ss in
  let '(t3, ss) := IStream.getline ss in
  {| NodesStr_1_1 := l11; NodesStr_1_2 := l12; EdgeTypeStr_1 := t1;
     NodesStr_2_1 := l21; NodesStr_2_2 := l22; EdgeTypeStr_2 := t2;
     NodesStr_3_1 := l31; NodesStr_3_2 := l32; EdgeTypeStr_3 := t3 |}.

(** The returned status and the file written. *)
Definition StringToWFObject (aFileName1 aFileName2 aInputString aOutFileName : StdString.t)
  : Z * list Effect :=
  let obj1 := read aFileName1 in
  let obj2 := read aFileName2 in
  let graph1 := computeCollisionGraph obj1 in
  let graph2 := computeCollisionGraph obj2 in
  let lines := read_lines aInputString in
  let edgeTypes1 :=
    label_edges graph1 (NodesStr_1_1 lines) (NodesStr_1_2 lines) (EdgeTypeStr_1 lines) in
  let edgeTypes2 :=
    label_edges graph2 (NodesStr_2_1 lines) (NodesStr_2_2 lines) (EdgeTypeStr_2 lines) in
  let tg := read_target (NodesStr_3_1 lines) (NodesStr_3_2 lines) (EdgeTypeStr_3 lines) in
  let graph3 := target_graph tg in
  let edgeTypes3Host := edgeTypes3 tg in
  let obj3 :=
    generateObject obj1 obj2 graph1 graph2 graph3 edgeTypes1 edgeTypes2 edgeTypes3Host in
  (0, [ObjectFile obj3 aOutFileName]).

End EntryPoints.

(** ** Names used in the statements *)

Section Statements.

Context `{B : Backend}.

(** The text behind the pointer that an entry point returns. *)
Definition returned_text (r : Memory.char_ptr * Memory.Process * list Effect)
  : option StdString.t :=
  Memory.text_at (snd (fst r)) (fst (fst r)).

(** What [n] successive calls of the converter return, from the
    converter state [c] on. *)
Fixpoint samples (n : nat) (c : Converter) (obj : WFObject) (graph : Graph.t)
  : list (StdString.t * StdString.t) :=
  match n with
  | O => []
  | S n' =>
      let '(sample, c') := convert c obj graph in
      sample :: samples n' c' obj graph
  end.

(** The grammar that [fixVariation] induces from the two exemplars. *)
Definition exemplar_grammar (aFileName1 aFileName2 : StdString.t) : GrammarCheck :=
  let obj1 := read aFileName1 in
  let obj2 := read aFileName2 in
  let graph1 := computeCollisionGraph obj1 in
  let graph2 := computeCollisionGraph obj2 in
  GrammarCheck_init
    (GrammarCheck_init GrammarCheck_new obj1
       (Graph.intervals graph1) (Graph.adjacencyVals graph1))
    obj2 (Graph.intervals graph2) (Graph.adjacencyVals graph2).

(** The grammar check of [fixVariation] on the collision graph of
    [obj], with the node types taken from the target as loaded. *)
Definition conforms (aFileName1 aFileName2 aFileName3 : StdString.t) (obj : WFObject)
  : bool :=
  let obj3 := read aFileName3 in
  let graph := computeCollisionGraph obj in
  GrammarCheck_check (exemplar_grammar aFileName1 aFileName2)
    (Graph.intervals graph) (Graph.adjacencyVals graph)
    (nodeTypes_of obj3 (computeCollisionGraph obj3)).

(** The wiggle, the target and the pass record after the pass loop. *)
Definition wiggled (aFileName1 aFileName2 aFileName3 : StdString.t)
  : Wiggle * WFObject * list Z :=
  let obj1 := read aFileName1 in
  let obj2 := read aFileName2 in
  let obj3 := read aFileName3 in
  wiggle_loop 128
    (Wiggle_init (Wiggle_init Wiggle_new obj1 (computeCollisionGraph obj1))
                 obj2 (computeCollisionGraph obj2))
    obj3 (computeCollisionGraph obj3).

(** The condition under which [fixVariation] writes the repaired
    object. *)
Definition revalidates (aFileName1 aFileName2 aFileName3 : StdString.t) : bool :=
  let '(wiggle, obj3, _) := wiggled aFileName1 aFileName2 aFileName3 in
  debugOutputLocalFrames wiggle || conforms aFileName1 aFileName2 aFileName3 obj3.

(** The pass loop ran all 128 passes and none reported zero
    corrections. *)
Definition exhausted (r : Repair) : Prop :=
  length (passes r) = 128%nat /\ Forall (fun c => c <> 0) (passes r).

(** The pass loop stopped at a pass that reported zero corrections. *)
Definition converged (r : Repair) : Prop :=
  last (passes r) = Some 0.

(** The first stored pair [(node_1, node_2)] among the pairs
    [edgeId, edgeId + remaining)]. *)
Fixpoint first_match (keys vals : list Z) (node_1 node_2 : Z)
    (remaining edgeId : nat) : option nat :=
  match remaining with
  | O => None
  | S remaining' =>
      if bool_decide (keys !! edgeId = Some node_1)
         && bool_decide (vals !! edgeId = Some node_2)
      then Some edgeId
      else first_match keys vals node_1 node_2 remaining' (S edgeId)
  end.

(** The stored pair of [graph] that the scan for a triple stops at. *)
Definition matched_edge (graph : Graph.t) (t : Z * Z * Z) : option nat :=
  first_match (Graph.adjacencyKeys graph) (Graph.adjacencyVals graph)
              (fst (fst t)) (snd (fst t)) (Graph.numEdges graph) 0.

(** The largest node id of a list of triples, 0 for none. *)
Definition max_id (ts : list (Z * Z * Z)) : Z :=
  foldl (fun m t => Z.max (Z.max m (fst (fst t))) (snd (fst t))) 0 ts.

(** The position after the last path separator, 0 without one. *)
Definition name_start (aFileName : StdString.t) : nat :=
  let p := StdString.find_last_of aFileName (StdString.of_literal "/\") in
  if p =? StdString.npos then 0%nat else Z.to_nat (p + 1).

(** What the interface description says of the name of the repaired
    file: the base name of [aOutFileName] (what follows the last
    separator, all of it without one) without its last five
    characters. *)
Definition base_name (aOutFileName : StdString.t) : StdString.t :=
  drop (name_start aOutFileName) aOutFileName.

Definition base_name_less_five (aOutFileName : StdString.t) : StdString.t :=
  take (length (base_name aOutFileName) - 5) (base_name aOutFileName).

(** No character of the text is a path separator. *)
Definition no_separator (s : StdString.t) : Prop :=
  Forall (fun c => StdString.is_one_of (StdString.of_literal "/\") c = false) s.

(** The number of line breaks of a text. *)
Definition line_breaks (s : list ascii) : nat :=
  length (filter (fun c => c = StdString.newline) s).

End Statements.

(** ** A small backend *)

Module TwoParts.

(** An object is two parts of material 0, [gap] units apart; the file
    [<gap>.obj] of any directory holds it. One pass of the wiggle moves
    the parts one unit closer and counts one correction, until they
    touch. The parts collide when they touch; the grammar allows the
    contact when an exemplar has it. *)

Definition load (aFileName : StdString.t) : Z :=
  match IStream.extract_uint (drop (name_start aFileName) aFileName) with
  | Some (gap, _) => gap
  | None => 0
  end.

Definition dir_name (aFileName : StdString.t) : StdString.t :=
  take (name_start aFileName) aFileName.

Definition collision_graph (gap : Z) : Graph.t :=
  if gap =? 0
  then Graph.Build [0; 1; 2] [0; 1] [1; 0]
  else Graph.Build [0; 0; 0] [] [].

Definition connected (g : Graph.t) : bool :=
  negb (Nat.eqb (Graph.numEdges g) 0).

Definition adjacency_list (keys vals : list Z) (numNodes : Z) (flag : bool) : Graph.t :=
  Graph.Build (replicate (S (Z.to_nat numNodes)) 0) keys vals.

(** The grammar: is the contact of two parts of material 0 allowed? *)
Definition grammar_init (allowed : bool) (obj : Z) (intervals vals : list Z) : bool :=
  allowed || negb (Nat.eqb (length vals) 0).

Definition grammar_check (allowed : bool) (intervals vals nodeTypes : list Z) : bool :=
  allowed || Nat.eqb (length vals) 0.

(** The wiggle is its [numCorrections]. *)
Definition wiggle_pass (numCorrections gap : Z) (g : Graph.t) : Z * Z :=
  if 0 <? gap then (1, gap - 1) else (0, gap).

(** The converter counts its calls; the [k]-th sample is the digit [k]
    and a line break, its node ids the letter [n], the digit and a line
    break. *)
Definition digit_char (k : nat) : ascii := ascii_of_nat (48 + k mod 10).

Definition sample (k : nat) (obj : Z) (g : Graph.t) : (StdString.t * StdString.t) * nat :=
  (([digit_char k; StdString.newline],
    ["n"%char; digit_char k; StdString.newline]), S k).

#[export] Instance backend : Backend := {|
  WFObject := Z;
  read := load;
  objects_x := fun _ nodeId => Z.of_nat nodeId;
  faces_material := fun _ _ => 0;
  computeCollisionGraph := collision_graph;
  isConnected := connected;
  fromAdjacencyList := adjacency_list;
  GrammarCheck := bool;
  GrammarCheck_new := false;
  GrammarCheck_init := grammar_init;
  GrammarCheck_check := grammar_check;
  Wiggle := Z;
  Wiggle_new := 0;
  Wiggle_init := fun w _ _ => w;
  fixRelativeTransformations := wiggle_pass;
  numCorrections := fun w => w;
  debugOutputLocalFrames := fun _ => false;
  getDirName := dir_name;
  Converter := nat;
  Converter_new := 0%nat;
  convert := sample;
  generateVariations := fun _ _ _ _ _ _ => StdString.of_literal "variations";
  generateObject := fun _ _ _ _ _ _ _ _ => 0
|}.

(** Calls of the entry points on this backend, with the file names
    as literals. *)
Definition file (name : string) : StdString.t := StdString.of_literal name.

Definition repair (f1 f2 f3 out : string) : Repair :=
  fixVariation (file f1) (file f2) (file f3) (file out).

Definition toString (f : string) (p : Memory.Process) :=
  WFObjectToString (file f) p.

Definition toStrings (f : string) (aAppendNodeIds : bool) :=
  WFObjectToStrings (file f) aAppendNodeIds Memory.start.

Definition randomVariations (f1 f2 : string) (p : Memory.Process) :=
  WFObjectRandomVariations (file f1) (file f2) p.

(** The collision graph of 0.obj. *)
Definition graph0 : Graph.t := collision_graph 0.

End TwoParts.

(** ** The encoded text *)

(** The labels that the description of [graphTextToObject] gives the
    stored pairs of an exemplar, for the triples [ts] in the order
    read: as many labels as stored pairs; a pair that no triple is
    matched to is unknown; a pair that a triple is matched to has the
    type of the last such triple. *)
Definition labelled (graph : Graph.t) (ts : list (Z * Z * Z)) (labels : list Z) : Prop :=
  length labels = Graph.numEdges graph /\
  (forall e, (e < Graph.numEdges graph)%nat ->
     (forall t, t ∈ ts -> matched_edge graph t <> Some e) ->
     labels !! e = Some Word.sentinel) /\
  (forall e ts1 t ts2, ts = ts1 ++ t :: ts2 ->
     matched_edge graph t = Some e ->
     (forall t', t' ∈ ts2 -> matched_edge graph t' <> Some e) ->
     labels !! e = Some (snd t)).

(** The scan stops at the first stored pair equal to the node pair of
    the triple. *)
Definition first_equal_pair (graph : Graph.t) (t : Z * Z * Z) (e : nat) : Prop :=
  (e < Graph.numEdges graph)%nat /\
  Graph.adjacencyKeys graph !! e = Some (fst (fst t)) /\
  Graph.adjacencyVals graph !! e = Some (snd (fst t)) /\
  (forall e', (e' < e)%nat ->
     ~ (Graph.adjacencyKeys graph !! e' = Some (fst (fst t)) /\
        Graph.adjacencyVals graph !! e' = Some (snd (fst t)))).

(** Nine lines, each closed by a line break, and what follows them. *)
Definition unlines (L : Lines) (rest : StdString.t) : StdString.t :=
  NodesStr_1_1 L ++ StdString.newline ::
  NodesStr_1_2 L ++ StdString.newline ::
  EdgeTypeStr_1 L ++ StdString.newline ::
  NodesStr_2_1 L ++ StdString.newline ::
  NodesStr_2_2 L ++ StdString.newline ::
  EdgeTypeStr_2 L ++ StdString.newline ::
  NodesStr_3_1 L ++ StdString.newline ::
  NodesStr_3_2 L ++ StdString.newline ::
  EdgeTypeStr_3 L ++ StdString.newline :: rest.

Definition line_free (L : Lines) : Prop :=
  (StdString.newline ∉ NodesStr_1_1 L) /\ (StdString.newline ∉ NodesStr_1_2 L) /\
  (StdString.newline ∉ EdgeTypeStr_1 L) /\
  (StdString.newline ∉ NodesStr_2_1 L) /\ (StdString.newline ∉ NodesStr_2_2 L) /\
  (StdString.newline ∉ EdgeTypeStr_2 L) /\
  (StdString.newline ∉ NodesStr_3_1 L) /\ (StdString.newline ∉ NodesStr_3_2 L) /\
  (StdString.newline ∉ EdgeTypeStr_3 L).

(** The triples of the three groups of an encoded text. *)
Definition triples_1 (L : Lines) : list (Z * Z * Z) :=
  IStream.triples (NodesStr_1_1 L) (NodesStr_1_2 L) (EdgeTypeStr_1 L).
Definition triples_2 (L : Lines) : list (Z * Z * Z) :=
  IStream.triples (NodesStr_2_1 L) (NodesStr_2_2 L) (EdgeTypeStr_2 L).
Definition triples_3 (L : Lines) : list (Z * Z * Z) :=
  IStream.triples (NodesStr_3_1 L) (NodesStr_3_2 L) (EdgeTypeStr_3 L).

(** The step of the fold that labels an exemplar. *)
Definition label_step (graph : Graph.t) (labels : list Z) (t : Z * Z * Z) : list Z :=
  match matched_edge graph t with
  | Some e => <[ e := snd t ]> labels
  | None => labels
  end.

(** Every number of a triple is an [unsigned int]. *)
Definition in_uint_range (t : Z * Z * Z) : Prop :=
  0 <= fst (fst t) <= Word.UINT_MAX /\
  0 <= snd (fst t) <= Word.UINT_MAX /\
  0 <= snd t <= Word.UINT_MAX.

(** ** Two encoded texts *)

Module Texts.

(** Both exemplars are 0.obj, whose stored pairs are (0, 1) and (1, 0).
    The first group labels both pairs, the second only the pair (1, 0);
    the target is a triangle. *)
Definition triangle_lines : Lines :=
  {| NodesStr_1_1 := StdString.of_literal "0 1";
     NodesStr_1_2 := StdString.of_literal "1 0";
     EdgeTypeStr_1 := StdString.of_literal "7 8";
     NodesStr_2_1 := StdString.of_literal "1";
     NodesStr_2_2 := StdString.of_literal "0";
     EdgeTypeStr_2 := StdString.of_literal "9";
     NodesStr_3_1 := StdString.of_literal "0 1 2";
     NodesStr_3_2 := StdString.of_literal "1 2 0";
     EdgeTypeStr_3 := StdString.of_literal "5 5 5" |}.

Definition triangle : StdString.t := unlines triangle_lines [].

(** A target with one edge, from the node 4294967295 to the node 0. *)
Definition far_node_lines : Lines :=
  {| NodesStr_1_1 := []; NodesStr_1_2 := []; EdgeTypeStr_1 := [];
     NodesStr_2_1 := []; NodesStr_2_2 := []; EdgeTypeStr_2 := [];
     NodesStr_3_1 := StdString.of_literal "4294967295";
     NodesStr_3_2 := StdString.of_literal "0";
     EdgeTypeStr_3 := StdString.of_literal "1" |}.

Definition far_node : StdString.t := unlines far_node_lines [].

End Texts.

(** ** Sequences of calls of the string-returning entry points *)

Section Calls.

Context `{B : Backend}.

Inductive Call : Type :=
| CallToString (aFilename : StdString.t)
| CallToStrings (aFilename : StdString.t) (aAppendNodeIds : bool)
| CallRandomVariations (aFileName1 aFileName2 : StdString.t).

Definition call (c : Call) (p : Memory.Process)
  : Memory.char_ptr * Memory.Process * list Effect :=
  match c with
  | CallToString f => WFObjectToString f p
  | CallToStrings f a => WFObjectToStrings f a p
  | CallRandomVariations f1 f2 => WFObjectRandomVariations f1 f2 p
  end.

(** The process after the calls, made one after the other. *)
Definition run (calls : list Call) (p : Memory.Process) : Memory.Process :=
  foldl (fun p c => snd (fst (call c p))) p calls.

Definition is_CallRandomVariations (c : Call) : bool :=
  match c with CallRandomVariations _ _ => true | _ => false end.

End Calls.

(** No block is live but the one [outputString] points to. *)
Definition retains_one (p : Memory.Process) : Prop :=
  (Memory.outputString p = None /\ Memory.heap p = ∅) \/
  (exists b text, Memory.outputString p = Some b /\ Memory.heap p = {[ b := text ]}).

(** ** The numbers of one line *)

(** What repeated [ss >> x] extracts from one stream until an
    extraction fails; every extraction consumes a character, so the
    [fuel] above the length of the stream is never used up. *)
Fixpoint tokens_fuel (fuel : nat) (ss : IStream.t) : list Z :=
  match fuel with
  | O => []
  | S fuel' =>
      match IStream.extract_uint ss with
      | None => []
      | Some (v, rest) => v :: tokens_fuel fuel' rest
      end
  end.

Definition tokens (ss : IStream.t) : list Z := tokens_fuel (S (length ss)) ss.

(** Nine lines of which the last is not closed by a line break. *)
Definition unlines_open (L : Lines) : StdString.t :=
  NodesStr_1_1 L ++ StdString.newline ::
  NodesStr_1_2 L ++ StdString.newline ::
  EdgeTypeStr_1 L ++ StdString.newline ::
  NodesStr_2_1 L ++ StdString.newline ::
  NodesStr_2_2 L ++ StdString.newline ::
  EdgeTypeStr_2 L ++ StdString.newline ::
  NodesStr_3_1 L ++ StdString.newline ::
  NodesStr_3_2 L ++ StdString.newline ::
  EdgeTypeStr_3 L.

(** ** The self test of the random number generator *)

Set Warnings "-abstract-large-number".

Module RandomTest.

Section WithGenerator.

(** [float], and the comparisons of the test: [r < -EPS],
    [r > 1.f + EPS] and [r < c] for the literals [c] = 0.125f, 0.25f,
    ..., 0.875f, which are [k] eighths for [k] from 1 to 7. *)
Variable float : Type.
Variable below_minus_EPS : float -> bool.
Variable above_one_plus_EPS : float -> bool.
Variable less_than_eighths : nat -> float -> bool.

(** [XorShift32Plus]: the constructor from two [unsigned int] and
    [operator()], which returns a [float] and advances the generator. *)
Variable Generator : Type.
Variable XorShift32Plus : Z -> Z -> Generator.
Variable genRand : Generator -> float * Generator.

(** The eight flags of one trial. *)
Record Bins : Type := {
  between0000_0125 : bool;
  between0125_0025 : bool;
  between0250_0375 : bool;
  between0375_0500 : bool;
  between0500_0625 : bool;
  between0625_0750 : bool;
  between0750_0875 : bool;
  between0875_1000 : bool
}.

Definition no_bin : Bins :=
  {| between0000_0125 := false; between0125_0025 := false;
     between0250_0375 := false; between0375_0500 := false;
     between0500_0625 := false; between0625_0750 := false;
     between0750_0875 := false; between0875_1000 := false |}.

(** The flag with the number [k], from 0 to 7. *)
Definition flag (k : nat) (b : Bins) : bool :=
  match k with
  | 0%nat => between0000_0125 b
  | 1%nat => between0125_0025 b
  | 2%nat => between0250_0375 b
  | 3%nat => between0375_0500 b
  | 4%nat => between0500_0625 b
  | 5%nat => between0625_0750 b
  | 6%nat => between0750_0875 b
  | _ => between0875_1000 b
  end.

(** The flag with the number [k] set to [true]. *)
Definition raise (k : nat) (b : Bins) : Bins :=
  {| between0000_0125 := Nat.eqb k 0 || between0000_0125 b;
     between0125_0025 := Nat.eqb k 1 || between0125_0025 b;
     between0250_0375 := Nat.eqb k 2 || between0250_0375 b;
     between0375_0500 := Nat.eqb k 3 || between0375_0500 b;
     between0500_0625 := Nat.eqb k 4 || between0500_0625 b;
     between0625_0750 := Nat.eqb k 5 || between0625_0750 b;
     between0750_0875 := Nat.eqb k 6 || between0750_0875 b;
     between0875_1000 := Nat.leb 7 k || between0875_1000 b |}.

(** The chain [if (r < 0.125f) ... else if (r < 0.25f) ... else ...]:
    the number of the flag that the sample [r] sets. *)
Definition bin_of (r : float) : nat :=
  if less_than_eighths 1 r then 0
  else if less_than_eighths 2 r then 1
  else if less_than_eighths 3 r then 2
  else if less_than_eighths 4 r then 3
  else if less_than_eighths 5 r then 4
  else if less_than_eighths 6 r then 5
  else if less_than_eighths 7 r then 6
  else 7.

Definition mark (b : Bins) (r : float) : Bins := raise (bin_of r) b.

(** The condition of the last [if] of a trial, negated. *)
Definition all_covered (b : Bins) : bool :=
  between0000_0125 b && between0125_0025 b && between0250_0375 b
  && between0375_0500 b && between0500_0625 b && between0625_0750 b
  && between0750_0875 b && between0875_1000 b.

(** [for (testId = 0u; testId < 10000u; ++testId)] with [remaining]
    turns to go: the value returned from inside the loop, or the flags
    at its end. *)
Fixpoint sample_loop (remaining : nat) (g : Generator) (b : Bins) : Z + Bins :=
  match remaining with
  | O => inr b
  | S remaining' =>
      let '(r, g') := genRand g in
      if below_minus_EPS r then inl 1
      else if above_one_plus_EPS r then inl 2
      else sample_loop remaining' g' (mark b r)
  end.

(** One turn of [for (tId = 0u; tId < 500u; ++tId)]: the value it
    returns, or [None] when it goes on to the next turn. [aConst1] is
    the clock value read before the loop, [aConst2] is 22. *)
Definition trial (aConst1 : Z) : option Z :=
  let aConst2 := 22 in
  let g := XorShift32Plus (Word.uint_add aConst1 aConst2)
                          (Word.to_uint (aConst2 * aConst2 * aConst1)) in
  match sample_loop 10000 g no_bin with
  | inl code => Some code
  | inr b => if negb (all_covered b) then Some 3 else None
  end.

Fixpoint trial_loop (remaining : nat) (aConst1 : Z) : Z :=
  match remaining with
  | O => 0
  | S remaining' =>
      match trial aConst1 with
      | Some code => code
      | None => trial_loop remaining' aConst1
      end
  end.

Definition testRandomNumberGenerator (aConst1 : Z) : Z := trial_loop 500 aConst1.

(** The first [n] samples of a generator. *)
Fixpoint drawn (n : nat) (g : Generator) : list float :=
  match n with
  | O => []
  | S n' => let '(r, g') := genRand g in r :: drawn n' g'
  end.

Definition in_range (r : float) : Prop :=
  below_minus_EPS r = false /\ above_one_plus_EPS r = false.

(** The samples of a trial. *)
Definition samples_of (aConst1 : Z) : list float :=
  drawn 10000
    (XorShift32Plus (Word.uint_add aConst1 22) (Word.to_uint (22 * 22 * aConst1))).

End WithGenerator.

End RandomTest.

(** A generator for trying the self test: floats are thousandths,
    [EPS] is one thousandth, and every sample is one half. *)
Module ConstantGenerator.

Definition below_minus_EPS (r : Z) : bool := r <? - 1.
Definition above_one_plus_EPS (r : Z) : bool := 1001 <? r.
Definition less_than_eighths (k : nat) (r : Z) : bool := r <? 125 * Z.of_nat k.
Definition XorShift32Plus (seed1 seed2 : Z) : Z := seed1.
Definition genRand (g : Z) : Z * Z := (500, g + 1).

Definition testRandomNumberGenerator : Z -> Z :=
  RandomTest.testRandomNumberGenerator Z below_minus_EPS above_one_plus_EPS
    less_than_eighths Z XorShift32Plus genRand.

Definition samples_of : Z -> list Z :=
  RandomTest.samples_of Z Z XorShift32Plus genRand.

Definition in_range : Z -> Prop :=
  RandomTest.in_range Z below_minus_EPS above_one_plus_EPS.

Definition bin_of : Z -> nat := RandomTest.bin_of Z less_than_eighths.

End ConstantGenerator.


(** ** More inputs for trying the entry points *)

Module Inputs.

(** A graph that stores the pair (0, 1) twice. *)
Definition repeated_pair : Graph.t := Graph.Build [0; 2; 2] [0; 0] [1; 1].

(** Four calls that free before they replace. *)
Definition freeing_calls : list Call :=
  [CallToString (TwoParts.file "0.obj");
   CallToStrings (TwoParts.file "0.obj") true;
   CallToStrings (TwoParts.file "1.obj") false;
   CallToString (TwoParts.file "0.obj")].

(** A node-id text that does not end in a line break. *)
Definition open_ids : StdString.t :=
  TwoParts.file "1 2" ++ StdString.newline :: TwoParts.file "3".

(** A [rand()] that always returns 5, and one that always returns
    [RAND_MAX]. *)
Definition RAND_MAX : Z := 2147483647.

End Inputs.

(** ** Repeated Wiggle passes *)

Section Passes.

Context `{B : Backend}.

(** The wiggle and the object after [k] calls of
    [wiggle.fixRelativeTransformations(obj3, graph3)]. *)
Fixpoint after_passes (k : nat) (wiggle : Wiggle) (obj3 : WFObject) (graph3 : Graph.t)
  : Wiggle * WFObject :=
  match k with
  | O => (wiggle, obj3)
  | S k' =>
      let '(wiggle', obj3') := fixRelativeTransformations wiggle obj3 graph3 in
      after_passes k' wiggle' obj3' graph3
  end.

(** The wiggle that [fixVariation] starts its pass loop with. *)
Definition first_wiggle (aFileName1 aFileName2 : StdString.t) : Wiggle :=
  let obj1 := read aFileName1 in
  let obj2 := read aFileName2 in
  Wiggle_init (Wiggle_init Wiggle_new obj1 (computeCollisionGraph obj1))
              obj2 (computeCollisionGraph obj2).

End Passes.

(** ** The backend of an empty object *)

Module NoParts.

(** Every file holds the object without parts. Its collision graph has
    no node and is connected (a traversal leaves no node unreached);
    the converter has nothing to write, so both texts of a sample are
    empty. *)
Definition empty_graph : Graph.t := Graph.Build [0] [] [].

Definition all_reached (g : Graph.t) : bool := Nat.eqb (Graph.numNodes g) 0.

#[export] Instance backend : Backend := {|
  WFObject := unit;
  read := fun _ => tt;
  objects_x := fun _ _ => 0;
  faces_material := fun _ _ => 0;
  computeCollisionGraph := fun _ => empty_graph;
  isConnected := all_reached;
  fromAdjacencyList := fun keys vals _ _ => Graph.Build [0] keys vals;
  GrammarCheck := unit;
  GrammarCheck_new := tt;
  GrammarCheck_init := fun _ _ _ _ => tt;
  GrammarCheck_check := fun _ _ _ _ => true;
  Wiggle := unit;
  Wiggle_new := tt;
  Wiggle_init := fun _ _ _ => tt;
  fixRelativeTransformations := fun _ obj _ => (tt, obj);
  numCorrections := fun _ => 0;
  debugOutputLocalFrames := fun _ => false;
  getDirName := fun _ => [];
  Converter := unit;
  Converter_new := tt;
  convert := fun _ _ _ => (([], []), tt);
  generateVariations := fun _ _ _ _ _ _ => [];
  generateObject := fun _ _ _ _ _ _ _ _ => tt
|}.

End NoParts.

(** * Properties *)

(** ** Machine integers and strings *)

Lemma sentinel_eq : Word.sentinel = 4294967295.
Proof. reflexivity. Qed.

Lemma to_uint_range z : 0 <= Word.to_uint z < Word.uint_modulus.
Proof. apply Z.mod_pos_bound. reflexivity. Qed.

Lemma to_uint_small z : 0 <= z < Word.uint_modulus -> Word.to_uint z = z.
Proof. apply Z.mod_small. Qed.

Lemma to_size_small z : 0 <= z < Word.size_modulus -> Word.to_size z = z.
Proof. apply Z.mod_small. Qed.

Lemma size_app (a b : StdString.t) :
  StdString.size (a ++ b) = StdString.size a + StdString.size b.
Proof. unfold StdString.size. rewrite length_app. lia. Qed.

Lemma size_nonneg (s : StdString.t) : 0 <= StdString.size s.
Proof. unfold StdString.size. lia. Qed.

Lemma c_str_no_NUL (s : StdString.t) :
  StdString.NUL ∉ s -> StdString.c_str s = s.
Proof.
  induction s as [|c s IH]; intros Hnin; [reflexivity|].
  apply not_elem_of_cons in Hnin as [Hne Hnin]. simpl.
  destruct (Ascii.eqb_spec c StdString.NUL) as [->|_]; [congruence|].
  now rewrite IH.
Qed.


Lemma find_last_of_from_app (chars a b : StdString.t) : forall i found,
  StdString.find_last_of_from chars (a ++ b) i found =
  StdString.find_last_of_from chars b (i + StdString.size a)
    (StdString.find_last_of_from chars a i found).
Proof.
  induction a as [|c a IH]; intros i found; simpl.
  - f_equal. unfold StdString.size; simpl. lia.
  - rewrite IH. f_equal. unfold StdString.size; simpl length. lia.
Qed.

Lemma find_last_of_from_none (chars s : StdString.t) : forall i found,
  Forall (fun c => StdString.is_one_of chars c = false) s ->
  StdString.find_last_of_from chars s i found = found.
Proof.
  induction s as [|c s IH]; intros i found Hall; [reflexivity|].
  inversion Hall as [|? ? Hc Hs]; subst. simpl. rewrite Hc. now apply IH.
Qed.

(** The last of the [chars] in [a ++ c :: b], when [c] is one and [b]
    has none, is at the position of [c]. *)
Lemma find_last_of_split (chars a b : StdString.t) (c : ascii) :
  StdString.is_one_of chars c = true ->
  Forall (fun c => StdString.is_one_of chars c = false) b ->
  StdString.find_last_of (a ++ c :: b) chars = StdString.size a.
Proof.
  intros Hc Hb. unfold StdString.find_last_of.
  rewrite find_last_of_from_app. simpl. rewrite Hc.
  now rewrite find_last_of_from_none.
Qed.

Lemma find_last_of_none (chars s : StdString.t) :
  Forall (fun c => StdString.is_one_of chars c = false) s ->
  StdString.find_last_of s chars = StdString.npos.
Proof. apply find_last_of_from_none. Qed.

(** A hit of [find_last_of] is a position of the string, so
    [substr(pos + 1, ...)] never throws. *)
Lemma find_last_of_from_range (chars s : StdString.t) : forall i found,
  StdString.find_last_of_from chars s i found = found \/
  i <= StdString.find_last_of_from chars s i found < i + StdString.size s.
Proof.
  induction s as [|c s IH]; intros i found; simpl; [now left|].
  unfold StdString.size; simpl length.
  destruct (IH (i + 1) (if StdString.is_one_of chars c then i else found))
    as [H|H].
  - rewrite H. destruct (StdString.is_one_of chars c); [right; lia | now left].
  - right. unfold StdString.size in H. lia.
Qed.

Lemma find_last_of_lt (chars s : StdString.t) :
  StdString.find_last_of s chars <> StdString.npos ->
  0 <= StdString.find_last_of s chars < StdString.size s.
Proof.
  intros Hne. unfold StdString.find_last_of in *.
  destruct (find_last_of_from_range chars s 0 StdString.npos) as [H|H];
    [contradiction | lia].
Qed.

Lemma substr_take (s : StdString.t) (count : Z) :
  0 <= count <= StdString.size s ->
  StdString.substr s 0 count = take (Z.to_nat count) s.
Proof.
  intros H. unfold StdString.substr. simpl drop.
  now rewrite Z.sub_0_r, Z.min_l by lia.
Qed.

Lemma substr_front (a b : StdString.t) :
  StdString.substr (a ++ b) 0 (StdString.size a) = a.
Proof.
  rewrite substr_take.
  - unfold StdString.size. rewrite Nat2Z.id. apply take_app_length.
  - rewrite size_app. pose proof (size_nonneg a). pose proof (size_nonneg b). lia.
Qed.

Lemma not_newline_is_one_of (b : StdString.t) :
  StdString.newline ∉ b ->
  Forall (fun c => StdString.is_one_of [StdString.newline] c = false) b.
Proof.
  intros Hnin. apply Forall_forall. intros c Hc.
  unfold StdString.is_one_of; simpl.
  destruct (Ascii.eqb_spec c StdString.newline) as [->|_]; [contradiction|reflexivity].
Qed.

(** Cutting at the last line break keeps what is before it. *)
Lemma strip_last_line_break_split (a b : StdString.t) :
  StdString.newline ∉ b ->
  strip_last_line_break (a ++ StdString.newline :: b) = a.
Proof.
  intros Hb. unfold strip_last_line_break.
  rewrite find_last_of_split.
  - apply substr_front.
  - reflexivity.
  - now apply not_newline_is_one_of.
Qed.

(** In particular a text that ends in a line break loses that one. *)
Lemma strip_last_line_break_trailing (a : StdString.t) :
  strip_last_line_break (a ++ [StdString.newline]) = a.
Proof. apply strip_last_line_break_split. apply not_elem_of_nil. Qed.

(** ** The name of the repaired file *)

(** Without a separator the last five characters go. *)
Lemma fixed_file_name_plain (s : StdString.t) :
  no_separator s ->
  5 <= StdString.size s < Word.size_modulus ->
  fixed_file_name s = take (length s - 5) s.
Proof.
  intros Hs Hsize. unfold fixed_file_name.
  rewrite find_last_of_none by exact Hs.
  rewrite Z.eqb_refl.
  unfold Word.size_sub. rewrite to_size_small by lia.
  rewrite substr_take by lia.
  f_equal. unfold StdString.size. lia.
Qed.

(** After a separator the last four characters of the base name go. *)
Lemma fixed_file_name_in_directory (d b : StdString.t) (c : ascii) :
  StdString.is_one_of (StdString.of_literal "/\") c = true ->
  no_separator b ->
  4 <= StdString.size b ->
  StdString.size (d ++ c :: b) < Word.size_modulus ->
  fixed_file_name (d ++ c :: b) = take (length b - 4) b.
Proof.
  intros Hc Hb H4 Hsize. unfold fixed_file_name.
  rewrite find_last_of_split by assumption.
  assert (Hlen : StdString.size (d ++ c :: b) = StdString.size d + 1 + StdString.size b).
  { rewrite size_app. unfold StdString.size; simpl length. lia. }
  pose proof (size_nonneg d) as Hd.
  destruct (Z.eqb_spec (StdString.size d) StdString.npos) as [He|_].
  { unfold StdString.npos in He. lia. }
  unfold Word.size_add, Word.size_sub.
  rewrite (to_size_small (StdString.size d + 1)) by lia.
  rewrite (to_size_small (StdString.size (d ++ c :: b) - StdString.size d)) by lia.
  rewrite to_size_small by lia.
  unfold StdString.substr.
  rewrite Z.min_l by lia.
  replace (Z.to_nat (StdString.size d + 1)) with (length (d ++ [c]))
    by (rewrite length_app; unfold StdString.size; simpl; lia).
  replace (d ++ c :: b) with ((d ++ [c]) ++ b) at 2 by now rewrite <- app_assoc.
  rewrite drop_app_length.
  f_equal. rewrite Hlen. unfold StdString.size. lia.
Qed.

(** ** Input streams *)

Lemma getline_line (l r : StdString.t) :
  StdString.newline ∉ l ->
  IStream.getline (l ++ StdString.newline :: r) = (l, r).
Proof.
  induction l as [|c l IH]; intros Hnin; simpl.
  - reflexivity.
  - apply not_elem_of_cons in Hnin as [Hne Hnin].
    destruct (Ascii.eqb_spec c StdString.newline) as [->|_]; [congruence|].
    now rewrite IH.
Qed.

Lemma getline_last (l : StdString.t) :
  StdString.newline ∉ l -> IStream.getline l = (l, []).
Proof.
  induction l as [|c l IH]; intros Hnin; simpl.
  - reflexivity.
  - apply not_elem_of_cons in Hnin as [Hne Hnin].
    destruct (Ascii.eqb_spec c StdString.newline) as [->|_]; [congruence|].
    now rewrite IH.
Qed.

(** A line taken from a stream with at most [n] line breaks leaves at
    most [n - 1], and nothing at all when there was none. *)
Lemma getline_budget (s : IStream.t) (n : nat) :
  (line_breaks s <= n)%nat ->
  (line_breaks (snd (IStream.getline s)) <= n - 1)%nat /\
  (n = 0%nat -> snd (IStream.getline s) = []).
Proof.
  revert n. induction s as [|c s IH]; intros n Hn; simpl.
  - split; [unfold line_breaks; simpl; lia | reflexivity].
  - unfold line_breaks in Hn. rewrite filter_cons in Hn.
    destruct (Ascii.eqb_spec c StdString.newline) as [->|Hne].
    + rewrite decide_True in Hn by reflexivity. simpl in *.
      split; [unfold line_breaks; lia | lia].
    + rewrite decide_False in Hn by assumption.
      destruct (IStream.getline s) as [line rest] eqn:E. simpl.
      destruct (IH n Hn) as [H1 H2]. simpl in *. split; assumption.
Qed.

Lemma skip_ws_length (s : IStream.t) :
  (length (IStream.skip_ws s) <= length s)%nat.
Proof.
  induction s as [|c s IH]; simpl; [lia|].
  destruct (IStream.is_space c); simpl; lia.
Qed.

Lemma read_sign_length (s : IStream.t) :
  (length (snd (IStream.read_sign s)) <= length s)%nat.
Proof.
  destruct s as [|c s]; simpl; [lia|].
  destruct (Ascii.eqb c "-"); [simpl; lia|].
  destruct (Ascii.eqb c "+"); simpl; lia.
Qed.

Lemma read_digits_length (s : IStream.t) : forall acc,
  (length (snd (IStream.read_digits s acc)) <= length s)%nat.
Proof.
  induction s as [|c s IH]; intros acc; simpl; [lia|].
  destruct (IStream.digit c); simpl; [|lia].
  specialize (IH (10 * acc + z)). lia.
Qed.

Lemma read_digits_nonneg (s : IStream.t) : forall acc,
  0 <= acc -> 0 <= fst (IStream.read_digits s acc).
Proof.
  induction s as [|c s IH]; intros acc Hacc; simpl; [assumption|].
  destruct (IStream.digit c) as [d|] eqn:Hd; simpl; [|assumption].
  apply IH. unfold IStream.digit in Hd.
  destruct (_ && _) eqn:Hr; [|discriminate].
  injection Hd as <-. lia.
Qed.

(** A successful extraction consumes at least one character. *)
Lemma extract_uint_shrinks (ss rest : IStream.t) (v : Z) :
  IStream.extract_uint ss = Some (v, rest) -> (length rest < length ss)%nat.
Proof.
  unfold IStream.extract_uint. intros H.
  pose proof (skip_ws_length ss) as Hws.
  pose proof (read_sign_length (IStream.skip_ws ss)) as Hsign.
  destruct (IStream.read_sign (IStream.skip_ws ss)) as [negative s]. simpl in Hsign.
  destruct s as [|c s]; [discriminate|].
  destruct (IStream.digit c) as [d|] eqn:Hd; [|discriminate].
  simpl in H. rewrite Hd in H.
  pose proof (read_digits_length s (10 * 0 + d)) as Hdig.
  destruct (IStream.read_digits s (10 * 0 + d)) as [w r].
  destruct (w <=? Word.UINT_MAX); [|discriminate].
  injection H as _ <-. simpl in *. lia.
Qed.

(** What is extracted is an [unsigned int]. *)
Lemma extract_uint_range (ss rest : IStream.t) (v : Z) :
  IStream.extract_uint ss = Some (v, rest) -> 0 <= v <= Word.UINT_MAX.
Proof.
  unfold IStream.extract_uint. intros H.
  destruct (IStream.read_sign (IStream.skip_ws ss)) as [negative s].
  destruct s as [|c s]; [discriminate|].
  destruct (IStream.digit c) as [d|] eqn:Hd; [|discriminate].
  pose proof (read_digits_nonneg (c :: s) 0 ltac:(lia)) as Hpos.
  destruct (IStream.read_digits (c :: s) 0) as [w r]. simpl in Hpos.
  destruct (Z.leb_spec w Word.UINT_MAX) as [Hle|]; [|discriminate].
  injection H as <- _.
  destruct negative; [|lia].
  pose proof (to_uint_range (- w)). unfold Word.UINT_MAX in *. lia.
Qed.

(** The loop never runs out of fuel: any fuel above the length of the
    first stream gives the same state. *)
Lemma while_triples_fuel_irrelevant {S : Type} (body : Z -> Z -> Z -> S -> S) :
  forall (fuel fuel' : nat) (ss1 ss2 ss3 : IStream.t) (st : S),
  (length ss1 < fuel)%nat -> (length ss1 < fuel')%nat ->
  IStream.while_triples_fuel body fuel ss1 ss2 ss3 st =
  IStream.while_triples_fuel body fuel' ss1 ss2 ss3 st.
Proof.
  induction fuel as [|fuel IH]; intros fuel' ss1 ss2 ss3 st H H'; [lia|].
  destruct fuel' as [|fuel']; [lia|]. simpl.
  destruct (IStream.extract_uint ss1) as [[n1 r1]|] eqn:E1; [|reflexivity].
  destruct (IStream.extract_uint ss2) as [[n2 r2]|]; [|reflexivity].
  destruct (IStream.extract_uint ss3) as [[ty r3]|]; [|reflexivity].
  apply extract_uint_shrinks in E1. apply IH; lia.
Qed.

Lemma while_triples_fuel_enough {S : Type} (body : Z -> Z -> Z -> S -> S)
    (fuel : nat) (ss1 ss2 ss3 : IStream.t) (st : S) :
  (length ss1 < fuel)%nat ->
  IStream.while_triples_fuel body fuel ss1 ss2 ss3 st =
  IStream.while_triples body ss1 ss2 ss3 st.
Proof.
  intros H. unfold IStream.while_triples.
  apply while_triples_fuel_irrelevant; lia.
Qed.

(** One turn of the loop. *)
Lemma while_triples_step {S : Type} (body : Z -> Z -> Z -> S -> S)
    (ss1 ss2 ss3 r1 r2 r3 : IStream.t) (n1 n2 ty : Z) (st : S) :
  IStream.extract_uint ss1 = Some (n1, r1) ->
  IStream.extract_uint ss2 = Some (n2, r2) ->
  IStream.extract_uint ss3 = Some (ty, r3) ->
  IStream.while_triples body ss1 ss2 ss3 st =
  IStream.while_triples body r1 r2 r3 (body n1 n2 ty st).
Proof.
  intros E1 E2 E3. unfold IStream.while_triples at 1. simpl.
  rewrite E1, E2, E3. apply while_triples_fuel_enough.
  apply extract_uint_shrinks in E1. lia.
Qed.

(** The loop ends at the first failed extraction. *)
Lemma while_triples_stop {S : Type} (body : Z -> Z -> Z -> S -> S)
    (ss1 ss2 ss3 : IStream.t) (st : S) :
  IStream.extract_uint ss1 = None \/
  IStream.extract_uint ss2 = None \/
  IStream.extract_uint ss3 = None ->
  IStream.while_triples body ss1 ss2 ss3 st = st.
Proof.
  intros H. unfold IStream.while_triples. simpl.
  destruct (IStream.extract_uint ss1) as [[n1 r1]|]; [|reflexivity].
  destruct (IStream.extract_uint ss2) as [[n2 r2]|]; [|reflexivity].
  destruct (IStream.extract_uint ss3) as [[ty r3]|]; [|reflexivity].
  destruct H as [H|[H|H]]; discriminate.
Qed.

(** The triples collected on top of [acc]. *)
Lemma triples_fuel_acc (fuel : nat) : forall (ss1 ss2 ss3 : IStream.t) acc,
  IStream.while_triples_fuel (fun n1 n2 ty acc => acc ++ [(n1, n2, ty)])
                             fuel ss1 ss2 ss3 acc =
  acc ++ IStream.while_triples_fuel (fun n1 n2 ty acc => acc ++ [(n1, n2, ty)])
                                    fuel ss1 ss2 ss3 [].
Proof.
  induction fuel as [|fuel IH]; intros ss1 ss2 ss3 acc; simpl.
  - now rewrite app_nil_r.
  - destruct (IStream.extract_uint ss1) as [[n1 r1]|]; [|now rewrite app_nil_r].
    destruct (IStream.extract_uint ss2) as [[n2 r2]|]; [|now rewrite app_nil_r].
    destruct (IStream.extract_uint ss3) as [[ty r3]|]; [|now rewrite app_nil_r].
    rewrite (IH r1 r2 r3 (acc ++ _)), (IH r1 r2 r3 [_]).
    now rewrite <- app_assoc.
Qed.

(** The loop is a fold of its body over the triples it extracts. *)
Lemma while_triples_fold {S : Type} (body : Z -> Z -> Z -> S -> S)
    (ss1 ss2 ss3 : IStream.t) (st : S) :
  IStream.while_triples body ss1 ss2 ss3 st =
  foldl (fun st t => body (fst (fst t)) (snd (fst t)) (snd t) st) st
        (IStream.triples ss1 ss2 ss3).
Proof.
  unfold IStream.triples, IStream.while_triples.
  generalize (Datatypes.S (length ss1)) as fuel. intros fuel.
  revert ss1 ss2 ss3 st.
  induction fuel as [|fuel IH]; intros ss1 ss2 ss3 st; simpl; [reflexivity|].
  destruct (IStream.extract_uint ss1) as [[n1 r1]|]; [|reflexivity].
  destruct (IStream.extract_uint ss2) as [[n2 r2]|]; [|reflexivity].
  destruct (IStream.extract_uint ss3) as [[ty r3]|]; [|reflexivity].
  rewrite triples_fuel_acc, IH. reflexivity.
Qed.

(** The triples, one turn at a time. *)
Lemma triples_step (ss1 ss2 ss3 r1 r2 r3 : IStream.t) (n1 n2 ty : Z) :
  IStream.extract_uint ss1 = Some (n1, r1) ->
  IStream.extract_uint ss2 = Some (n2, r2) ->
  IStream.extract_uint ss3 = Some (ty, r3) ->
  IStream.triples ss1 ss2 ss3 = (n1, n2, ty) :: IStream.triples r1 r2 r3.
Proof.
  intros E1 E2 E3. unfold IStream.triples.
  rewrite (while_triples_step _ _ _ _ _ _ _ _ _ _ _ E1 E2 E3).
  unfold IStream.while_triples. now rewrite triples_fuel_acc.
Qed.

Lemma triples_stop (ss1 ss2 ss3 : IStream.t) :
  IStream.extract_uint ss1 = None \/
  IStream.extract_uint ss2 = None \/
  IStream.extract_uint ss3 = None ->
  IStream.triples ss1 ss2 ss3 = [].
Proof. apply while_triples_stop. Qed.

(** ** The round trip through the compact representation *)

Lemma numNodes_fromAdjacencyMatrix (matrix : list Z) (n : nat) :
  Graph.numNodes (Graph.fromAdjacencyMatrix matrix n) = n.
Proof.
  unfold Graph.numNodes, Graph.fromAdjacencyMatrix; simpl.
  now rewrite length_map, length_seq.
Qed.

Lemma length_set_cells (cells : list nat) : forall matrix,
  length (Graph.set_cells matrix cells) = length matrix.
Proof.
  induction cells as [|p cells IH]; intros matrix; [reflexivity|].
  change (length (Graph.set_cells (<[p:=1]> matrix) cells) = length matrix).
  rewrite IH. apply length_insert.
Qed.

Lemma set_cells_lookup_notin (cells : list nat) : forall (matrix : list Z) (p : nat),
  p ∉ cells -> Graph.set_cells matrix cells !! p = matrix !! p.
Proof.
  induction cells as [|q cells IH]; intros matrix p Hnin; [reflexivity|].
  apply not_elem_of_cons in Hnin as [Hne Hnin].
  change (Graph.set_cells (<[q:=1]> matrix) cells !! p = matrix !! p).
  rewrite IH by assumption.
  apply list_lookup_insert_ne. congruence.
Qed.

Lemma set_cells_lookup_in (cells : list nat) : forall (matrix : list Z) (p : nat),
  p ∈ cells -> (p < length matrix)%nat ->
  Graph.set_cells matrix cells !! p = Some 1.
Proof.
  induction cells as [|q cells IH]; intros matrix p Hin Hlt.
  - inversion Hin.
  - change (Graph.set_cells (<[q:=1]> matrix) cells !! p = Some 1).
    destruct (decide (p ∈ cells)) as [Hc|Hc].
    + apply IH; [assumption|]. now rewrite length_insert.
    + apply elem_of_cons in Hin as [->|Hin]; [|contradiction].
      rewrite set_cells_lookup_notin by assumption.
      now apply list_lookup_insert_eq.
Qed.

(** The pairs stored by [fromAdjacencyMatrix] scatter back to the cells
    they came from. *)
Lemma scatter_stored (n : nat) (cells : list nat) : forall matrix,
  Forall (fun p => (p < n * n)%nat) cells ->
  foldl (Graph.scatter n) matrix
        (zip (map (fun p => Z.of_nat (p / n)) cells)
             (map (fun p => Z.of_nat (p mod n)) cells))
  = Graph.set_cells matrix cells.
Proof.
  induction cells as [|p cells IH]; intros matrix Hall; [reflexivity|].
  inversion Hall as [|? ? Hp Hall']; subst.
  unfold Graph.set_cells in *; simpl. rewrite IH by assumption.
  f_equal. unfold Graph.scatter; simpl. rewrite !Nat2Z.id.
  f_equal. destruct n as [|n]; [simpl in Hp; lia|].
  rewrite (Nat.div_mod_eq p (S n)) at 3. lia.
Qed.

Lemma ones_bound (n : nat) (matrix : list Z) :
  Forall (fun p => (p < n * n)%nat) (Graph.ones n matrix).
Proof.
  apply Forall_forall. intros p Hp. unfold Graph.ones in Hp.
  apply list_elem_of_filter in Hp as [_ Hp].
  apply elem_of_seq in Hp. lia.
Qed.

Lemma elem_of_ones (n : nat) (matrix : list Z) (p : nat) :
  p ∈ Graph.ones n matrix <-> (p < n * n)%nat /\ matrix !! p = Some 1.
Proof.
  unfold Graph.ones. rewrite list_elem_of_filter, elem_of_seq.
  split; intros [? ?]; split; (assumption || lia).
Qed.

(** The round trip needs the entries to be 0 or 1, not the symmetry. *)
Lemma roundtrip_zero_one (n : nat) (matrix : list Z) :
  length matrix = (n * n)%nat ->
  Graph.zero_one matrix ->
  Graph.toAdjacencyMatrix (Graph.fromAdjacencyMatrix matrix n) = (matrix, n).
Proof.
  intros Hlen H01. unfold Graph.toAdjacencyMatrix.
  rewrite numNodes_fromAdjacencyMatrix. f_equal.
  unfold Graph.fromAdjacencyMatrix; simpl.
  rewrite scatter_stored by apply ones_bound.
  apply list_eq. intros p.
  destruct (decide (p < n * n)%nat) as [Hp|Hp].
  - destruct (lookup_lt_is_Some_2 matrix p) as [x Hx]; [lia|].
    assert (Hx01 : x = 0 \/ x = 1).
    { eapply Forall_forall in H01; [exact H01|].
      apply list_elem_of_lookup. eauto. }
    destruct Hx01 as [->| ->].
    + rewrite set_cells_lookup_notin.
      * rewrite Hx. apply lookup_replicate_2. assumption.
      * rewrite elem_of_ones. intros [_ H1]. congruence.
    + rewrite Hx. apply set_cells_lookup_in.
      * now apply elem_of_ones.
      * now rewrite length_replicate.
  - rewrite (lookup_ge_None_2 matrix) by lia.
    apply lookup_ge_None_2.
    rewrite length_set_cells, length_replicate. lia.
Qed.

(** The stored pairs of a symmetric matrix are closed under
    mirroring. *)
Lemma fromAdjacencyMatrix_mirrored (n : nat) (matrix : list Z) (i j : nat) :
  Graph.symmetric n matrix -> (i < n)%nat -> (j < n)%nat ->
  (i * n + j)%nat ∈ Graph.ones n matrix ->
  (j * n + i)%nat ∈ Graph.ones n matrix.
Proof.
  intros Hsym Hi Hj. rewrite !elem_of_ones. intros [_ H1]. split.
  - nia.
  - specialize (Hsym i j Hi Hj). unfold Graph.entry in Hsym. congruence.
Qed.

(** C5: for every symmetric 0/1 matrix M of size n x n,
    toAdjacencyMatrix(fromAdjacencyMatrix(M, n)) gives back M (and n):
    the round trip through the compact adjacency representation is the
    identity. *)
Theorem adjacency_matrix_roundtrip (n : nat) (M : list Z) :
  length M = (n * n)%nat ->
  Graph.zero_one M ->
  Graph.symmetric n M ->
  Graph.toAdjacencyMatrix (Graph.fromAdjacencyMatrix M n) = (M, n).
Proof.
  intros Hlen H01 _. now apply roundtrip_zero_one.
Qed.

Lemma adjacency_matrix_roundtrip_witness :
  Graph.toAdjacencyMatrix
    (Graph.fromAdjacencyMatrix [0; 1; 0; 1; 0; 1; 0; 1; 0] 3)
  = ([0; 1; 0; 1; 0; 1; 0; 1; 0], 3%nat).
Proof.
  apply (adjacency_matrix_roundtrip 3 [0; 1; 0; 1; 0; 1; 0; 1; 0]).
  - reflexivity.
  - repeat constructor; (now left) || (now right).
  - intros i j Hi Hj.
    destruct i as [|[|[|i]]]; try lia;
      destruct j as [|[|[|j]]]; try lia; reflexivity.
Defined.

(** ** The self test of the first revision *)

Section SelfTestFacts.

Variable RAND_MAX : Z.
Variable rand : nat -> Z.

Lemma foldl_invariant {A E} (P : A -> Prop) (f : A -> E -> A) (l : list E) :
  (forall a b, P a -> P (f a b)) -> forall a, P a -> P (foldl f a l).
Proof.
  intros Hf. induction l as [|b l IH]; intros a Ha; simpl; auto.
Qed.

Lemma zero_one_insert (m : list Z) (p : nat) :
  Graph.zero_one m -> Graph.zero_one (<[ p := 1 ]> m).
Proof.
  intros H. unfold Graph.zero_one in *.
  apply Forall_insert; [assumption | now right].
Qed.

Lemma fill_cell_well_shaped n i st j :
  GraphSelfTest.well_shaped n st ->
  GraphSelfTest.well_shaped n (GraphSelfTest.fill_cell RAND_MAX rand n i st j).
Proof.
  intros [Hlen H01]. unfold GraphSelfTest.well_shaped, GraphSelfTest.fill_cell; simpl.
  destruct (GraphSelfTest.makeEdge RAND_MAX rand (snd st)); split; try assumption.
  - now rewrite !length_insert.
  - now do 2 apply zero_one_insert.
Qed.

Lemma fill_matrix_well_shaped n :
  length (GraphSelfTest.fill_matrix RAND_MAX rand n) = (n * n)%nat /\
  Graph.zero_one (GraphSelfTest.fill_matrix RAND_MAX rand n).
Proof.
  unfold GraphSelfTest.fill_matrix.
  apply (foldl_invariant (GraphSelfTest.well_shaped n)).
  - intros st i Hst. unfold GraphSelfTest.fill_row.
    apply (foldl_invariant (GraphSelfTest.well_shaped n)); [|assumption].
    intros; now apply fill_cell_well_shaped.
  - split; simpl; [apply length_replicate|].
    apply Forall_replicate. now left.
Qed.

(** The self test never reports a wrong position, whatever [rand()]
    returns, for a size whose square is an [int]. *)
Lemma testGraphConstruction_silent n :
  GraphSelfTest.fits_int n = true ->
  GraphSelfTest.testGraphConstruction RAND_MAX rand n = Some ([], 0).
Proof.
  intros Hfits. unfold GraphSelfTest.testGraphConstruction. rewrite Hfits.
  destruct (fill_matrix_well_shaped n) as [Hlen H01].
  rewrite roundtrip_zero_one by assumption.
  do 2 f_equal. induction (seq 0 (n * n)) as [|i l IH]; [reflexivity|].
  rewrite filter_cons. destruct (decide _) as [Hne|_]; [congruence|exact IH].
Qed.

End SelfTestFacts.

(** ** The retained output buffer *)

Lemma free_then_replace (result : StdString.t) (p : Memory.Process) :
  Memory.well_formed p ->
  Memory.frees_before_replacing p
    (Memory.replace_outputString result (Memory.free_outputString p)).
Proof.
  intros [_ Hout] b Hb _. unfold Memory.free_outputString. rewrite Hb. simpl.
  specialize (Hout b Hb).
  rewrite lookup_insert_ne by lia. apply lookup_delete_eq.
Qed.

Lemma free_then_replace_well_formed (result : StdString.t) (p : Memory.Process) :
  Memory.well_formed p ->
  Memory.well_formed (Memory.replace_outputString result (Memory.free_outputString p)).
Proof.
  intros [Hheap Hout]. split.
  - intros b [x Hx]. simpl in *.
    assert (Hnext : Memory.next_address (Memory.free_outputString p)
                    = Memory.next_address p).
    { unfold Memory.free_outputString. now destruct (Memory.outputString p). }
    rewrite Hnext in *.
    destruct (decide (b = Memory.next_address p)) as [->|Hne]; [lia|].
    rewrite lookup_insert_ne in Hx by congruence.
    assert (is_Some (Memory.heap p !! b)); [|apply Nat.lt_lt_succ_r; auto].
    unfold Memory.free_outputString in Hx.
    destruct (Memory.outputString p) as [b0|]; simpl in Hx; [|eauto].
    destruct (decide (b0 = b)) as [->|Hne'].
    + rewrite lookup_delete_eq in Hx. discriminate.
    + rewrite lookup_delete_ne in Hx by assumption. eauto.
  - intros b Hb. simpl in Hb. injection Hb as <-. simpl. lia.
Qed.

Lemma start_well_formed : Memory.well_formed Memory.start.
Proof.
  split.
  - intros b [x Hx]. simpl in Hx. rewrite lookup_empty in Hx. discriminate.
  - intros b Hb. discriminate.
Qed.

(** The text just installed is what the returned pointer refers to. *)
Lemma replace_outputString_text (result : StdString.t) (p : Memory.Process) :
  let p' := Memory.replace_outputString result p in
  Memory.text_at p' (Memory.return_outputString p') = Some (StdString.c_str result).
Proof. simpl. apply lookup_insert_eq. Qed.

(** ** The entry points *)

Section EntryPointFacts.

Context `{B : Backend}.

Lemma WFObjectToString_frees (aFilename : StdString.t) (p : Memory.Process) :
  Memory.well_formed p ->
  Memory.frees_before_replacing p (snd (fst (WFObjectToString aFilename p))).
Proof. intros Hp. unfold WFObjectToString; simpl. now apply free_then_replace. Qed.

Lemma WFObjectToStrings_frees (aFilename : StdString.t) (aAppendNodeIds : bool)
    (p : Memory.Process) :
  Memory.well_formed p ->
  Memory.frees_before_replacing p
    (snd (fst (WFObjectToStrings aFilename aAppendNodeIds p))).
Proof.
  intros Hp. unfold WFObjectToStrings.
  destruct (negb _); simpl.
  - intros b Hb Hne. congruence.
  - now apply free_then_replace.
Qed.

(** *** The samples of [WFObjectToStrings] *)

Lemma resample_samples (obj : WFObject) (graph : Graph.t) (l : list nat) :
  forall st,
  fst (foldl (resample obj graph) st l) =
  (fst (fst st) ++ concat (map fst (samples (length l) (snd st) obj graph)),
   snd (fst st) ++ concat (map snd (samples (length l) (snd st) obj graph))).
Proof.
  induction l as [|i l IH]; intros [[s ids] c]; simpl.
  - now rewrite !app_nil_r.
  - rewrite IH. unfold resample; simpl.
    destruct (convert c obj graph) as [[s' ids'] c']; simpl.
    now rewrite <- !app_assoc.
Qed.

(** The two texts after the loop: the 11 samples, concatenated. *)
Lemma sample_texts_samples (obj : WFObject) (graph : Graph.t) :
  sample_texts obj graph =
  (concat (map fst (samples 11 Converter_new obj graph)),
   concat (map snd (samples 11 Converter_new obj graph))).
Proof.
  unfold sample_texts. rewrite resample_samples.
  change (length (seq 0 10)) with 10%nat.
  change (samples 11 Converter_new obj graph) with
    (let '(sample, c') := convert Converter_new obj graph in
     sample :: samples 10 c' obj graph).
  destruct (convert Converter_new obj graph) as [[s ids] c]. reflexivity.
Qed.

Lemma samples_length (n : nat) (obj : WFObject) (graph : Graph.t) :
  forall c, length (samples n c obj graph) = n.
Proof.
  induction n as [|n IH]; intros c; simpl; [reflexivity|].
  destruct (convert c obj graph) as [sample c']. simpl. now rewrite IH.
Qed.

(** *** The pass loop of [fixVariation] *)

Lemma wiggle_loop_passes (n : nat) (graph3 : Graph.t) :
  forall (wiggle : Wiggle) (obj3 : WFObject),
  let corrections := snd (wiggle_loop n wiggle obj3 graph3) in
  (length corrections <= n)%nat /\
  (forall i c, corrections !! i = Some c -> c = 0 -> S i = length corrections) /\
  ((length corrections < n)%nat -> last corrections = Some 0).
Proof.
  induction n as [|n IH]; intros wiggle obj3; simpl.
  - repeat split; [lia | intros i c Hi; discriminate | lia].
  - destruct (fixRelativeTransformations wiggle obj3 graph3) as [w1 o1].
    destruct (Z.eqb_spec (numCorrections w1) 0) as [Hz|Hnz]; simpl.
    + repeat split; [lia| |now rewrite Hz].
      intros [|i] c Hi; [reflexivity|discriminate].
    + specialize (IH w1 o1).
      destruct (wiggle_loop n w1 o1 graph3) as [[w2 o2] tr]. simpl in *.
      destruct IH as (Hlen & Hzero & Hlast).
      repeat split; [lia| |].
      * intros [|i] c Hi Hc; simpl in Hi.
        -- injection Hi as <-. contradiction.
        -- f_equal. now apply (Hzero i c).
      * intros Hlt. rewrite last_cons. rewrite Hlast by lia. reflexivity.
Qed.

(** [fixVariation], by the outcome of its two grammar checks. *)
Lemma fixVariation_cases (aFileName1 aFileName2 aFileName3 aOutFileName : StdString.t) :
  fixVariation aFileName1 aFileName2 aFileName3 aOutFileName =
  if negb (conforms aFileName1 aFileName2 aFileName3 (read aFileName3))
  then {| status := 1; repaired := read aFileName3; passes := []; written := [] |}
  else
    let '(_, obj3, corrections) := wiggled aFileName1 aFileName2 aFileName3 in
    if revalidates aFileName1 aFileName2 aFileName3
    then {| status := 0; repaired := obj3; passes := corrections;
            written := [ObjectFile obj3
                          (getDirName aFileName3 ++ fixed_file_name aOutFileName)] |}
    else {| status := 2; repaired := obj3; passes := corrections; written := [] |}.
Proof.
  unfold fixVariation, revalidates, wiggled, conforms, exemplar_grammar.
  cbv zeta.
  destruct (negb _); [reflexivity|].
  destruct (wiggle_loop _ _ _ _) as [[w o] tr]. reflexivity.
Qed.

(** C1: in fixVariation the Wiggle pass loop executes
    fixRelativeTransformations at most 128 times, and a pass that
    reports zero corrections is the last pass executed. *)
Theorem wiggle_passes_bounded
    (aFileName1 aFileName2 aFileName3 aOutFileName : StdString.t) :
  let r := fixVariation aFileName1 aFileName2 aFileName3 aOutFileName in
  (length (passes r) <= 128)%nat /\
  (forall i c, passes r !! i = Some c -> c = 0 -> S i = length (passes r)).
Proof.
  intros r. subst r. rewrite fixVariation_cases.
  destruct (negb _).
  - simpl. split; [lia | intros i c Hi; discriminate].
  - pose proof (wiggle_loop_passes 128 (computeCollisionGraph (read aFileName3))
                  (Wiggle_init
                     (Wiggle_init Wiggle_new (read aFileName1)
                        (computeCollisionGraph (read aFileName1)))
                     (read aFileName2) (computeCollisionGraph (read aFileName2)))
                  (read aFileName3)) as H.
    fold (wiggled aFileName1 aFileName2 aFileName3) in H.
    destruct (wiggled aFileName1 aFileName2 aFileName3) as [[w o] tr].
    simpl in H. destruct H as (Hlen & Hzero & _).
    destruct (revalidates _ _ _); simpl; split; assumption.
Qed.

(** C2: when the target's collision graph fails the grammar check
    induced from the two exemplars, fixVariation returns status 1 with
    no Wiggle pass executed and no file written, and the target object
    is as it was loaded. *)
Theorem grammar_violation_is_atomic
    (aFileName1 aFileName2 aFileName3 aOutFileName : StdString.t) :
  conforms aFileName1 aFileName2 aFileName3 (read aFileName3) = false ->
  let r := fixVariation aFileName1 aFileName2 aFileName3 aOutFileName in
  status r = 1 /\ passes r = [] /\ written r = [] /\ repaired r = read aFileName3.
Proof.
  intros Hfail r. subst r. rewrite fixVariation_cases, Hfail. simpl. auto.
Qed.

(** C3, as amended: the status of fixVariation is 1 when the target
    fails the first grammar check, otherwise 0 when the check after the
    pass loop passes (or the wiggle's debug flag is set) and 2 when it
    fails; it is the same whether the loop stopped at a pass without
    corrections or ran all 128 passes. *)
Theorem status_by_grammar_checks
    (aFileName1 aFileName2 aFileName3 aOutFileName : StdString.t) :
  status (fixVariation aFileName1 aFileName2 aFileName3 aOutFileName) =
  if negb (conforms aFileName1 aFileName2 aFileName3 (read aFileName3)) then 1
  else if revalidates aFileName1 aFileName2 aFileName3 then 0 else 2.
Proof.
  rewrite fixVariation_cases.
  destruct (negb _); [reflexivity|].
  destruct (wiggled _ _ _) as [[w o] tr].
  destruct (revalidates _ _ _); reflexivity.
Qed.

End EntryPointFacts.

Section CollisionStrings.

Context `{B : Backend}.

(** What [WFObjectToStrings] returns on a connected graph. *)
Lemma WFObjectToStrings_connected (aFilename : StdString.t) (aAppendNodeIds : bool)
    (p : Memory.Process) :
  let obj := read aFilename in
  let graph := computeCollisionGraph obj in
  isConnected graph = true ->
  returned_text (WFObjectToStrings aFilename aAppendNodeIds p) =
  Some (StdString.c_str
          (fst (sample_texts obj graph) ++
           (if aAppendNodeIds
            then strip_last_line_break (snd (sample_texts obj graph))
            else []))).
Proof.
  intros obj graph Hconn. unfold WFObjectToStrings, returned_text.
  fold obj. fold graph. rewrite Hconn. simpl negb. cbv iota. cbv zeta.
  cbn [fst snd].
  destruct aAppendNodeIds.
  - apply replace_outputString_text.
  - rewrite app_nil_r. apply replace_outputString_text.
Qed.


(** C6: on a connected collision graph WFObjectToStrings returns, as a
    C string, the concatenation of the structural texts of exactly 11
    successive samples of the converter on the same object and graph
    (the base sample and 10 resamples), followed, when aAppendNodeIds is
    set, by the concatenated node-id texts of the 11 samples cut at
    their last line break; node-id texts that end in a line break lose
    exactly that final line break. *)
Theorem eleven_samples (aFilename : StdString.t) (aAppendNodeIds : bool)
    (p : Memory.Process) :
  let obj := read aFilename in
  let graph := computeCollisionGraph obj in
  let drawn := samples 11 Converter_new obj graph in
  let structure := concat (map fst drawn) in
  let nodeIds := concat (map snd drawn) in
  let result :=
    structure ++ (if aAppendNodeIds then strip_last_line_break nodeIds else []) in
  isConnected graph = true ->
  length drawn = 11%nat /\
  returned_text (WFObjectToStrings aFilename aAppendNodeIds p) =
    Some (StdString.c_str result) /\
  (StdString.NUL ∉ result ->
   returned_text (WFObjectToStrings aFilename aAppendNodeIds p) = Some result) /\
  (forall ids, nodeIds = ids ++ [StdString.newline] ->
               strip_last_line_break nodeIds = ids).
Proof.
  intros obj graph drawn structure nodeIds result Hconn.
  pose proof (WFObjectToStrings_connected aFilename aAppendNodeIds p Hconn) as Hret.
  fold obj in Hret. fold graph in Hret.
  rewrite sample_texts_samples in Hret. cbn [fst snd] in Hret.
  fold drawn in Hret. fold structure in Hret. fold nodeIds in Hret.
  fold result in Hret.
  split; [apply samples_length|].
  split; [exact Hret|].
  split.
  - intros Hnul. rewrite Hret. now rewrite c_str_no_NUL.
  - intros ids ->. apply strip_last_line_break_trailing.
Qed.

End CollisionStrings.

(** ** The entry points on the small backend *)

Section OnTwoParts.

Import TwoParts.

Lemma wiggle_passes_bounded_witness :
  (length (passes (repair "5.obj" "6.obj" "1.obj" "out.obj")) <= 128)%nat /\
  passes (repair "5.obj" "6.obj" "1.obj" "out.obj") = [1; 0] /\
  2%nat = length (passes (repair "5.obj" "6.obj" "1.obj" "out.obj")).
Proof.
  destruct (wiggle_passes_bounded (B := TwoParts.backend)
              (file "5.obj") (file "6.obj") (file "1.obj") (file "out.obj"))
    as [Hlen Hzero].
  split; [exact Hlen|]. split; [reflexivity|].
  apply (Hzero 1%nat 0); reflexivity.
Defined.

Lemma grammar_violation_is_atomic_witness :
  status (repair "1.obj" "2.obj" "0.obj" "out.obj") = 1 /\
  passes (repair "1.obj" "2.obj" "0.obj" "out.obj") = [] /\
  written (repair "1.obj" "2.obj" "0.obj" "out.obj") = [] /\
  repaired (repair "1.obj" "2.obj" "0.obj" "out.obj") = 0.
Proof.
  apply (grammar_violation_is_atomic (B := TwoParts.backend)
           (file "1.obj") (file "2.obj") (file "0.obj") (file "out.obj")).
  reflexivity.
Defined.

(** C3, as stated, fails: with exemplars that do not touch, the target
    128.obj runs all 128 passes, each with a correction, and the target
    1.obj stops at a pass without corrections; both end in contact,
    which the grammar does not allow, and both calls return 2. *)
Lemma exhaustion_shares_status_2 :
  exhausted (repair "5.obj" "6.obj" "128.obj" "out.obj") /\
  converged (repair "5.obj" "6.obj" "1.obj" "out.obj") /\
  written (repair "5.obj" "6.obj" "1.obj" "out.obj") = [] /\
  status (repair "5.obj" "6.obj" "128.obj" "out.obj") =
  status (repair "5.obj" "6.obj" "1.obj" "out.obj").
Proof.
  split; [|repeat split; reflexivity].
  assert (Hpasses : passes (repair "5.obj" "6.obj" "128.obj" "out.obj")
                    = replicate 128 1) by (vm_compute; reflexivity).
  unfold exhausted. rewrite Hpasses. split.
  - apply length_replicate.
  - apply Forall_replicate. discriminate.
Qed.

(** A run of all 128 passes may as well return 0. *)
Lemma exhaustion_with_status_0 :
  exhausted (repair "5.obj" "6.obj" "200.obj" "out.obj") /\
  status (repair "5.obj" "6.obj" "200.obj" "out.obj") = 0.
Proof.
  split; [|reflexivity].
  assert (Hpasses : passes (repair "5.obj" "6.obj" "200.obj" "out.obj")
                    = replicate 128 1) by (vm_compute; reflexivity).
  unfold exhausted. rewrite Hpasses. split.
  - apply length_replicate.
  - apply Forall_replicate. discriminate.
Qed.

(** A name of fewer than five characters is kept whole: the count
    [size - 5] wraps around. *)
Example fixed_file_name_short :
  fixed_file_name (file "a.o") = file "a.o" /\
  fixed_file_name (file "d/a.o") = file "a.o".
Proof. split; reflexivity. Qed.

(** C8: a successful repair returns 0 and writes the repaired object
    into the directory of the target, but for an [aOutFileName] with a
    separator the name keeps one character more than the base name
    without its last five characters: dir/name.obj gives name where
    name.obj gives nam. *)
Theorem fixed_file_name_after_separator :
  status (repair "0.obj" "0.obj" "models/1.obj" "dir/name.obj") = 0 /\
  written (repair "0.obj" "0.obj" "models/1.obj" "dir/name.obj")
    = [ObjectFile (B := TwoParts.backend) 0 (file "models/name")] /\
  base_name_less_five (file "dir/name.obj") = file "nam" /\
  written (repair "0.obj" "0.obj" "models/1.obj" "name.obj")
    = [ObjectFile (B := TwoParts.backend) 0 (file "models/nam")] /\
  base_name_less_five (file "name.obj") = file "nam".
Proof. repeat split; reflexivity. Qed.

(** C9: WFObjectRandomVariations replaces the retained buffer without
    freeing it. After WFObjectToString on 0.obj the buffer is the block
    0; a following WFObjectRandomVariations leaves [outputString] at
    the block 1 and the block 0 allocated, with its text. *)
Theorem random_variations_leak :
  let p1 := snd (fst (toString "0.obj" Memory.start)) in
  let p2 := snd (fst (randomVariations "0.obj" "0.obj" p1)) in
  Memory.well_formed p1 /\
  Memory.outputString p1 = Some 0%nat /\
  Memory.outputString p2 = Some 1%nat /\
  Memory.heap p2 !! 0%nat = Some (file "0") /\
  ~ Memory.frees_before_replacing p1 p2.
Proof.
  intros p1 p2.
  assert (Hwf : Memory.well_formed p1).
  { apply (free_then_replace_well_formed _ Memory.start), start_well_formed. }
  assert (H0 : Memory.heap p2 !! 0%nat = Some (file "0")) by reflexivity.
  repeat split; try reflexivity; try apply Hwf; try exact H0.
  intros Hfree. specialize (Hfree 0%nat eq_refl).
  rewrite H0 in Hfree. discriminate Hfree. discriminate.
Qed.



Lemma eleven_samples_witness :
  returned_text (toStrings "0.obj" true) =
  Some (concat (map (fun k => [TwoParts.digit_char k; StdString.newline]) (seq 0 11))
        ++ concat (map (fun k => ["n"%char; TwoParts.digit_char k; StdString.newline])
                       (seq 0 10))
        ++ ["n"%char; TwoParts.digit_char 10]).
Proof.
  destruct (eleven_samples (B := TwoParts.backend) (file "0.obj") true
              Memory.start) as (_ & _ & Hret & _); [reflexivity|].
  unfold toStrings. rewrite Hret; [reflexivity|].
  vm_compute. intros H.
  repeat (apply elem_of_cons in H as [H|H]; [discriminate H|]).
  inversion H.
Defined.

End OnTwoParts.

(** ** Decoding the encoded text *)

(** The scan of the stored pairs writes the type at the first match. *)
Lemma label_first_match_spec (keys vals : list Z) (node_1 node_2 edge_type : Z)
    (remaining : nat) : forall (edgeId : nat) (edgeTypes : list Z),
  label_first_match keys vals node_1 node_2 edge_type remaining edgeId edgeTypes =
  match first_match keys vals node_1 node_2 remaining edgeId with
  | Some e => <[ e := edge_type ]> edgeTypes
  | None => edgeTypes
  end.
Proof.
  induction remaining as [|remaining IH]; intros edgeId edgeTypes; simpl.
  - reflexivity.
  - destruct (_ && _); [reflexivity | apply IH].
Qed.

Lemma first_match_Some (keys vals : list Z) (node_1 node_2 : Z) (remaining : nat) :
  forall (edgeId e : nat),
  first_match keys vals node_1 node_2 remaining edgeId = Some e ->
  (edgeId <= e < edgeId + remaining)%nat /\
  keys !! e = Some node_1 /\ vals !! e = Some node_2 /\
  (forall e', (edgeId <= e' < e)%nat ->
     ~ (keys !! e' = Some node_1 /\ vals !! e' = Some node_2)).
Proof.
  induction remaining as [|remaining IH]; intros edgeId e; simpl; [discriminate|].
  destruct (bool_decide (keys !! edgeId = Some node_1)) eqn:Hk;
    [destruct (bool_decide (vals !! edgeId = Some node_2)) eqn:Hv|]; simpl.
  - intros [= <-].
    apply bool_decide_eq_true in Hk. apply bool_decide_eq_true in Hv.
    repeat split; try assumption; lia.
  - intros H. apply IH in H as (Hr & Hke & Hve & Hfirst).
    apply bool_decide_eq_false in Hv.
    repeat split; try assumption; try lia.
    intros e' He' [Hk' Hv'].
    destruct (decide (e' = edgeId)) as [->|Hne]; [contradiction|].
    apply (Hfirst e'); [lia | now split].
  - intros H. apply IH in H as (Hr & Hke & Hve & Hfirst).
    apply bool_decide_eq_false in Hk.
    repeat split; try assumption; try lia.
    intros e' He' [Hk' Hv'].
    destruct (decide (e' = edgeId)) as [->|Hne]; [contradiction|].
    apply (Hfirst e'); [lia | now split].
Qed.

Lemma first_match_None (keys vals : list Z) (node_1 node_2 : Z) (remaining : nat) :
  forall (edgeId : nat),
  first_match keys vals node_1 node_2 remaining edgeId = None ->
  forall e, (edgeId <= e < edgeId + remaining)%nat ->
    ~ (keys !! e = Some node_1 /\ vals !! e = Some node_2).
Proof.
  induction remaining as [|remaining IH]; intros edgeId H e He; [lia|].
  simpl in H.
  destruct (bool_decide (keys !! edgeId = Some node_1)) eqn:Hk;
    [destruct (bool_decide (vals !! edgeId = Some node_2)) eqn:Hv|];
    simpl in H; try discriminate.
  - apply bool_decide_eq_false in Hv.
    destruct (decide (e = edgeId)) as [->|Hne]; [tauto|].
    apply (IH (S edgeId) H). lia.
  - apply bool_decide_eq_false in Hk.
    destruct (decide (e = edgeId)) as [->|Hne]; [tauto|].
    apply (IH (S edgeId) H). lia.
Qed.

(** The stored pair a triple is matched to is the first one equal to
    its node pair; without such a pair the triple is matched to
    none. *)
Lemma matched_edge_first (graph : Graph.t) (t : Z * Z * Z) (e : nat) :
  matched_edge graph t = Some e <-> first_equal_pair graph t e.
Proof.
  unfold matched_edge, first_equal_pair. split.
  - intros H. apply first_match_Some in H as (Hr & Hk & Hv & Hfirst).
    repeat split; try assumption; try lia.
    intros e' He'. apply Hfirst. lia.
  - intros (Hlt & Hk & Hv & Hfirst).
    destruct (first_match _ _ _ _ _ _) as [e0|] eqn:E.
    + apply first_match_Some in E as (Hr & Hk0 & Hv0 & Hfirst0).
      f_equal. destruct (Nat.lt_trichotomy e0 e) as [Hlt'|[->|Hgt]].
      * exfalso. apply (Hfirst e0 Hlt'). now split.
      * reflexivity.
      * exfalso. apply (Hfirst0 e); [lia | now split].
    + exfalso. apply (first_match_None _ _ _ _ _ _ E e); [lia | now split].
Qed.

Lemma foldl_pointwise {A E} (f g : A -> E -> A) (l : list E) :
  (forall a b, f a b = g a b) -> forall a, foldl f a l = foldl g a l.
Proof.
  intros Hfg. induction l as [|b l IH]; intros a; simpl; [reflexivity|].
  now rewrite Hfg, IH.
Qed.

Lemma label_edges_fold (graph : Graph.t) (l1 l2 l3 : StdString.t) :
  label_edges graph l1 l2 l3 =
  foldl (label_step graph) (replicate (Graph.numEdges graph) Word.sentinel)
        (IStream.triples l1 l2 l3).
Proof.
  unfold label_edges. rewrite while_triples_fold.
  apply foldl_pointwise. intros labels t.
  rewrite label_first_match_spec. reflexivity.
Qed.

Lemma label_step_length (graph : Graph.t) (labels : list Z) (t : Z * Z * Z) :
  length (label_step graph labels t) = length labels.
Proof.
  unfold label_step. destruct (matched_edge graph t); [apply length_insert|reflexivity].
Qed.

Lemma foldl_label_step_length (graph : Graph.t) (ts : list (Z * Z * Z)) :
  forall labels, length (foldl (label_step graph) labels ts) = length labels.
Proof.
  induction ts as [|t ts IH]; intros labels; simpl; [reflexivity|].
  now rewrite IH, label_step_length.
Qed.

Lemma foldl_label_step_unmatched (graph : Graph.t) (e : nat) (ts : list (Z * Z * Z)) :
  forall labels,
  (forall t, t ∈ ts -> matched_edge graph t <> Some e) ->
  foldl (label_step graph) labels ts !! e = labels !! e.
Proof.
  induction ts as [|t ts IH]; intros labels Hno; simpl; [reflexivity|].
  rewrite IH by (intros t' Ht'; apply Hno; now apply list_elem_of_further).
  unfold label_step.
  destruct (matched_edge graph t) as [e0|] eqn:E; [|reflexivity].
  apply list_lookup_insert_ne. intros ->.
  apply (Hno t); [apply list_elem_of_here | exact E].
Qed.

Lemma foldl_label_step_matched (graph : Graph.t) (e : nat)
    (ts1 ts2 : list (Z * Z * Z)) (t : Z * Z * Z) (labels : list Z) :
  (e < length labels)%nat ->
  matched_edge graph t = Some e ->
  (forall t', t' ∈ ts2 -> matched_edge graph t' <> Some e) ->
  foldl (label_step graph) labels (ts1 ++ t :: ts2) !! e = Some (snd t).
Proof.
  intros Hlt Ht Hno. rewrite foldl_app. simpl.
  rewrite foldl_label_step_unmatched by assumption.
  unfold label_step at 1. rewrite Ht.
  apply list_lookup_insert_eq. now rewrite foldl_label_step_length.
Qed.

(** The labels of an exemplar are those of the description. *)
Lemma label_edges_labelled (graph : Graph.t) (l1 l2 l3 : StdString.t) :
  labelled graph (IStream.triples l1 l2 l3) (label_edges graph l1 l2 l3).
Proof.
  rewrite label_edges_fold. repeat split.
  - rewrite foldl_label_step_length. apply length_replicate.
  - intros e He Hno. rewrite foldl_label_step_unmatched by assumption.
    now apply lookup_replicate_2.
  - intros e ts1 t ts2 -> Ht Hno.
    apply foldl_label_step_matched; try assumption.
    rewrite length_replicate.
    apply matched_edge_first in Ht. apply Ht.
Qed.

(** The target lists are the columns of the triples, in order. *)
Lemma foldl_push_triple (ts : list (Z * Z * Z)) : forall tg,
  foldl (fun tg t => push_triple (fst (fst t)) (snd (fst t)) (snd t) tg) tg ts =
  {| keys3 := keys3 tg ++ map (fun t => fst (fst t)) ts;
     vals3 := vals3 tg ++ map (fun t => snd (fst t)) ts;
     edgeTypes3 := edgeTypes3 tg ++ map snd ts;
     max_node_id :=
       foldl (fun m t => Z.max (Z.max m (fst (fst t))) (snd (fst t)))
             (max_node_id tg) ts |}.
Proof.
  induction ts as [|t ts IH]; intros tg; simpl.
  - rewrite !app_nil_r. now destruct tg.
  - rewrite IH. unfold push_triple; simpl. now rewrite <- !app_assoc.
Qed.

Lemma read_target_triples (l1 l2 l3 : StdString.t) :
  read_target l1 l2 l3 =
  {| keys3 := map (fun t => fst (fst t)) (IStream.triples l1 l2 l3);
     vals3 := map (fun t => snd (fst t)) (IStream.triples l1 l2 l3);
     edgeTypes3 := map snd (IStream.triples l1 l2 l3);
     max_node_id := max_id (IStream.triples l1 l2 l3) |}.
Proof.
  unfold read_target. rewrite while_triples_fold, foldl_push_triple. reflexivity.
Qed.

Lemma triples_fuel_range (fuel : nat) :
  forall (l1 l2 l3 : IStream.t) (acc : list (Z * Z * Z)),
  Forall in_uint_range acc ->
  Forall in_uint_range
    (IStream.while_triples_fuel (fun n1 n2 ty acc => acc ++ [(n1, n2, ty)])
                                fuel l1 l2 l3 acc).
Proof.
  induction fuel as [|fuel IH]; intros l1 l2 l3 acc Hacc; simpl; [assumption|].
  destruct (IStream.extract_uint l1) as [[n1 r1]|] eqn:E1; [|assumption].
  destruct (IStream.extract_uint l2) as [[n2 r2]|] eqn:E2; [|assumption].
  destruct (IStream.extract_uint l3) as [[ty r3]|] eqn:E3; [|assumption].
  apply IH. apply Forall_app. split; [assumption|].
  constructor; [|constructor].
  apply extract_uint_range in E1, E2, E3. now repeat split.
Qed.

Lemma triples_range (l1 l2 l3 : IStream.t) :
  Forall in_uint_range (IStream.triples l1 l2 l3).
Proof. apply triples_fuel_range. constructor. Qed.

Lemma foldl_max_bounds (ts : list (Z * Z * Z)) : forall m,
  Forall in_uint_range ts -> 0 <= m <= Word.UINT_MAX ->
  let m' := foldl (fun m t => Z.max (Z.max m (fst (fst t))) (snd (fst t))) m ts in
  m <= m' <= Word.UINT_MAX /\
  (forall t, t ∈ ts -> fst (fst t) <= m' /\ snd (fst t) <= m') /\
  (m' = m \/ exists t, t ∈ ts /\ (m' = fst (fst t) \/ m' = snd (fst t))).
Proof.
  induction ts as [|t ts IH]; intros m Hall Hm; simpl.
  - split; [lia|]. split; [|now left].
    intros t Ht. inversion Ht.
  - inversion Hall as [|? ? (H1 & H2 & _) Hts]; subst.
    destruct (IH (Z.max (Z.max m (fst (fst t))) (snd (fst t))) Hts ltac:(lia))
      as (Hb & Hup & Hatt).
    simpl in Hb, Hup, Hatt.
    split; [lia|]. split.
    + intros t' Ht'. apply elem_of_cons in Ht' as [->|Hin]; [lia|]. now apply Hup.
    + destruct Hatt as [Heq|(t' & Ht' & Ht'')].
      * rewrite Heq.
        destruct (Z.max_spec m (fst (fst t))) as [[? E1]|[? E1]];
          destruct (Z.max_spec (Z.max m (fst (fst t))) (snd (fst t)))
            as [[? E2]|[? E2]]; rewrite E2, ?E1;
          solve [ now left
                | right; exists t; split; [apply list_elem_of_here | tauto] ].
      * right. exists t'. split; [now apply list_elem_of_further | assumption].
Qed.

(** [max_id] is the largest node id of the triples, 0 without any. *)
Lemma max_id_spec (l1 l2 l3 : IStream.t) :
  let ts := IStream.triples l1 l2 l3 in
  0 <= max_id ts <= Word.UINT_MAX /\
  (forall t, t ∈ ts -> fst (fst t) <= max_id ts /\ snd (fst t) <= max_id ts) /\
  (max_id ts = 0 \/
   exists t, t ∈ ts /\ (max_id ts = fst (fst t) \/ max_id ts = snd (fst t))).
Proof.
  intros ts. unfold max_id.
  apply (foldl_max_bounds ts 0 (triples_range l1 l2 l3)).
  unfold Word.UINT_MAX, Word.uint_modulus. lia.
Qed.

Lemma read_lines_unlines (L : Lines) (rest : StdString.t) :
  line_free L -> read_lines (unlines L rest) = L.
Proof.
  intros (H1 & H2 & H3 & H4 & H5 & H6 & H7 & H8 & H9).
  unfold read_lines, unlines.
  rewrite !getline_line by assumption. now destruct L.
Qed.

(** With fewer than eight line breaks the ninth line is empty. *)
Lemma ninth_line_empty (aInputString : StdString.t) :
  (line_breaks aInputString < 8)%nat ->
  EdgeTypeStr_3 (read_lines aInputString) = [].
Proof.
  intros H. unfold read_lines.
  assert (H0 : (line_breaks aInputString <= 7)%nat) by lia. clear H.
  pose proof (getline_budget aInputString 7 H0) as [B1 _].
  destruct (IStream.getline aInputString) as [l11 s1]. simpl in B1.
  pose proof (getline_budget s1 6 B1) as [B2 _].
  destruct (IStream.getline s1) as [l12 s2]. simpl in B2.
  pose proof (getline_budget s2 5 B2) as [B3 _].
  destruct (IStream.getline s2) as [t1 s3]. simpl in B3.
  pose proof (getline_budget s3 4 B3) as [B4 _].
  destruct (IStream.getline s3) as [l21 s4]. simpl in B4.
  pose proof (getline_budget s4 3 B4) as [B5 _].
  destruct (IStream.getline s4) as [l22 s5]. simpl in B5.
  pose proof (getline_budget s5 2 B5) as [B6 _].
  destruct (IStream.getline s5) as [t2 s6]. simpl in B6.
  pose proof (getline_budget s6 1 B6) as [B7 _].
  destruct (IStream.getline s6) as [l31 s7]. simpl in B7.
  pose proof (getline_budget s7 0 B7) as [_ B8].
  destruct (IStream.getline s7) as [l32 s8]. simpl in B8.
  rewrite (B8 eq_refl). reflexivity.
Qed.

Lemma triples_no_types (l1 l2 : IStream.t) : IStream.triples l1 l2 [] = [].
Proof. apply triples_stop. right. right. reflexivity. Qed.

Section StringToObject.

Context `{B : Backend}.

(** [StringToWFObject], by what it hands to the generator. *)
Lemma StringToWFObject_eq (aFileName1 aFileName2 aInputString aOutFileName : StdString.t) :
  let obj1 := read aFileName1 in
  let obj2 := read aFileName2 in
  let graph1 := computeCollisionGraph obj1 in
  let graph2 := computeCollisionGraph obj2 in
  let L := read_lines aInputString in
  StringToWFObject aFileName1 aFileName2 aInputString aOutFileName =
  (0, [ObjectFile
         (generateObject obj1 obj2 graph1 graph2
            (fromAdjacencyList
               (map (fun t => fst (fst t)) (triples_3 L))
               (map (fun t => snd (fst t)) (triples_3 L))
               (Word.to_uint (max_id (triples_3 L) + 1)) false)
            (label_edges graph1 (NodesStr_1_1 L) (NodesStr_1_2 L) (EdgeTypeStr_1 L))
            (label_edges graph2 (NodesStr_2_1 L) (NodesStr_2_2 L) (EdgeTypeStr_2 L))
            (map snd (triples_3 L)))
         aOutFileName]).
Proof.
  intros obj1 obj2 graph1 graph2 L.
  unfold StringToWFObject, target_graph, triples_3.
  fold obj1 obj2 graph1 graph2 L. cbv zeta.
  rewrite read_target_triples. reflexivity.
Qed.

(** C7, as amended: StringToWFObject reads the encoded text as nine
    lines in three groups of three. For each exemplar, every triple
    read from its group is matched to the first stored pair equal to
    its node pair; a stored pair has the type of the last triple
    matched to it, and the sentinel (unsigned)-1 when no triple is. The
    target graph is built from the triples of the third group by
    fromAdjacencyList with flag false and the node count (max + 1) mod
    2^32, max being the largest node id of the group: one plus the
    maximum when that is below 4294967295, 0 when it is 4294967295, and
    1 for a group without triples. *)
Theorem encoded_text_decoding
    (aFileName1 aFileName2 aInputString aOutFileName : StdString.t) :
  let obj1 := read aFileName1 in
  let obj2 := read aFileName2 in
  let graph1 := computeCollisionGraph obj1 in
  let graph2 := computeCollisionGraph obj2 in
  let L := read_lines aInputString in
  let edgeTypes1 :=
    label_edges graph1 (NodesStr_1_1 L) (NodesStr_1_2 L) (EdgeTypeStr_1 L) in
  let edgeTypes2 :=
    label_edges graph2 (NodesStr_2_1 L) (NodesStr_2_2 L) (EdgeTypeStr_2 L) in
  let ts3 := triples_3 L in
  let graph3 :=
    fromAdjacencyList (map (fun t => fst (fst t)) ts3) (map (fun t => snd (fst t)) ts3)
                      (Word.to_uint (max_id ts3 + 1)) false in
  (forall L0 rest, line_free L0 -> aInputString = unlines L0 rest -> L = L0) /\
  labelled graph1 (triples_1 L) edgeTypes1 /\
  labelled graph2 (triples_2 L) edgeTypes2 /\
  (forall t e, matched_edge graph1 t = Some e <-> first_equal_pair graph1 t e) /\
  (forall t e, matched_edge graph2 t = Some e <-> first_equal_pair graph2 t e) /\
  StringToWFObject aFileName1 aFileName2 aInputString aOutFileName =
    (0, [ObjectFile
           (generateObject obj1 obj2 graph1 graph2 graph3
                           edgeTypes1 edgeTypes2 (map snd ts3))
           aOutFileName]) /\
  (forall t, t ∈ ts3 -> fst (fst t) <= max_id ts3 /\ snd (fst t) <= max_id ts3) /\
  (max_id ts3 = 0 \/
   exists t, t ∈ ts3 /\ (max_id ts3 = fst (fst t) \/ max_id ts3 = snd (fst t))) /\
  (max_id ts3 < Word.UINT_MAX -> Word.to_uint (max_id ts3 + 1) = max_id ts3 + 1) /\
  (max_id ts3 = Word.UINT_MAX -> Word.to_uint (max_id ts3 + 1) = 0) /\
  (ts3 = [] -> Word.to_uint (max_id ts3 + 1) = 1).
Proof.
  intros obj1 obj2 graph1 graph2 L edgeTypes1 edgeTypes2 ts3 graph3.
  destruct (max_id_spec (NodesStr_3_1 L) (NodesStr_3_2 L) (EdgeTypeStr_3 L))
    as (Hrange & Hupper & Hattained).
  fold (triples_3 L) in Hrange, Hupper, Hattained. fold ts3 in Hrange, Hupper, Hattained.
  split; [|split; [|split; [|split; [|split; [|split; [|split; [|split;
    [|split; [|split]]]]]]]]].
  - intros L0 rest Hfree ->. now apply read_lines_unlines.
  - apply label_edges_labelled.
  - apply label_edges_labelled.
  - intros t e. apply matched_edge_first.
  - intros t e. apply matched_edge_first.
  - apply StringToWFObject_eq.
  - exact Hupper.
  - exact Hattained.
  - intros Hlt. apply to_uint_small.
    unfold Word.UINT_MAX in *. lia.
  - intros ->. reflexivity.
  - intros ->. reflexivity.
Qed.

(** C10: StringToWFObject returns 0 for every input text, and always
    writes to aOutFileName the object that the generator makes of the
    two exemplars, their edge types and the target lists read from the
    text. A text with fewer than nine lines (fewer than eight line
    breaks) has no triple in its third group; with no triple in the
    third group the generator receives empty target lists and a target
    graph built from no pairs with node count 1; an exemplar group
    without triples hands the generator edge types that are all the
    sentinel. The status is 0 all the same. *)
Theorem malformed_text_returns_0
    (aFileName1 aFileName2 aInputString aOutFileName : StdString.t) :
  let obj1 := read aFileName1 in
  let obj2 := read aFileName2 in
  let graph1 := computeCollisionGraph obj1 in
  let graph2 := computeCollisionGraph obj2 in
  let L := read_lines aInputString in
  let edgeTypes1 :=
    label_edges graph1 (NodesStr_1_1 L) (NodesStr_1_2 L) (EdgeTypeStr_1 L) in
  let edgeTypes2 :=
    label_edges graph2 (NodesStr_2_1 L) (NodesStr_2_2 L) (EdgeTypeStr_2 L) in
  let tg := read_target (NodesStr_3_1 L) (NodesStr_3_2 L) (EdgeTypeStr_3 L) in
  let unknown1 := replicate (Graph.numEdges graph1) Word.sentinel in
  let unknown2 := replicate (Graph.numEdges graph2) Word.sentinel in
  StringToWFObject aFileName1 aFileName2 aInputString aOutFileName =
    (0, [ObjectFile
           (generateObject obj1 obj2 graph1 graph2 (target_graph tg)
                           edgeTypes1 edgeTypes2 (edgeTypes3 tg))
           aOutFileName]) /\
  ((line_breaks aInputString < 8)%nat -> triples_3 L = []) /\
  (triples_3 L = [] ->
   keys3 tg = [] /\ vals3 tg = [] /\ edgeTypes3 tg = [] /\
   target_graph tg = fromAdjacencyList [] [] 1 false /\
   StringToWFObject aFileName1 aFileName2 aInputString aOutFileName =
     (0, [ObjectFile
            (generateObject obj1 obj2 graph1 graph2
                            (fromAdjacencyList [] [] 1 false)
                            edgeTypes1 edgeTypes2 [])
            aOutFileName])) /\
  (triples_1 L = [] -> edgeTypes1 = unknown1) /\
  (triples_2 L = [] -> edgeTypes2 = unknown2) /\
  (triples_1 L = [] -> triples_2 L = [] -> triples_3 L = [] ->
   StringToWFObject aFileName1 aFileName2 aInputString aOutFileName =
     (0, [ObjectFile
            (generateObject obj1 obj2 graph1 graph2
                            (fromAdjacencyList [] [] 1 false)
                            unknown1 unknown2 [])
            aOutFileName])) /\
  (aInputString = [] ->
   triples_1 L = [] /\ triples_2 L = [] /\ triples_3 L = []).
Proof.
  intros obj1 obj2 graph1 graph2 L edgeTypes1 edgeTypes2 tg unknown1 unknown2.
  assert (Hrun : StringToWFObject aFileName1 aFileName2 aInputString aOutFileName =
                 (0, [ObjectFile
                        (generateObject obj1 obj2 graph1 graph2 (target_graph tg)
                                        edgeTypes1 edgeTypes2 (edgeTypes3 tg))
                        aOutFileName])) by reflexivity.
  assert (Htarget : triples_3 L = [] ->
            keys3 tg = [] /\ vals3 tg = [] /\ edgeTypes3 tg = [] /\
            target_graph tg = fromAdjacencyList [] [] 1 false).
  { intros Hnone. subst tg. unfold target_graph.
    rewrite read_target_triples. unfold triples_3 in Hnone. rewrite Hnone.
    simpl. repeat split; reflexivity. }
  assert (Hunknown1 : triples_1 L = [] -> edgeTypes1 = unknown1).
  { intros Hnone. subst edgeTypes1. rewrite label_edges_fold.
    unfold triples_1 in Hnone. now rewrite Hnone. }
  assert (Hunknown2 : triples_2 L = [] -> edgeTypes2 = unknown2).
  { intros Hnone. subst edgeTypes2. rewrite label_edges_fold.
    unfold triples_2 in Hnone. now rewrite Hnone. }
  split; [exact Hrun|].
  split.
  { intros Hfew. unfold triples_3. subst L.
    rewrite ninth_line_empty by assumption. apply triples_no_types. }
  split.
  { intros Hnone. destruct (Htarget Hnone) as (Hk & Hv & Ht & Hg).
    repeat split; try assumption. rewrite Hrun, Hg, Ht. reflexivity. }
  split; [exact Hunknown1|]. split; [exact Hunknown2|].
  split.
  - intros H1 H2 H3. destruct (Htarget H3) as (_ & _ & Ht & Hg).
    rewrite Hrun, Hg, Ht, (Hunknown1 H1), (Hunknown2 H2). reflexivity.
  - intros Hempty. subst L. rewrite Hempty. repeat split; reflexivity.
Qed.

End StringToObject.

(** ** Decoding on the small backend *)

Ltac not_in_text :=
  vm_compute; let H := fresh in
  intros H; repeat (apply elem_of_cons in H as [H|H]; [discriminate H|]);
  inversion H.

Lemma triangle_line_free : line_free Texts.triangle_lines.
Proof. repeat split; not_in_text. Qed.

Section DecodingOnTwoParts.

Import TwoParts.

Lemma encoded_text_decoding_witness :
  read_lines Texts.triangle = Texts.triangle_lines /\
  label_edges graph0 (file "0 1") (file "1 0") (file "7 8") !! 0%nat = Some 7 /\
  label_edges graph0 (file "1") (file "0") (file "9") !! 0%nat = Some Word.sentinel /\
  Word.to_uint (max_id (triples_3 Texts.triangle_lines) + 1) = 3.
Proof.
  destruct (encoded_text_decoding (B := TwoParts.backend)
              (file "0.obj") (file "0.obj") Texts.triangle (file "out.obj"))
    as (Hlines & Hlab1 & Hlab2 & _ & _ & _ & _ & _ & Hcount & _ & _).
  specialize (Hlines Texts.triangle_lines [] triangle_line_free eq_refl).
  rewrite Hlines in Hlab1, Hlab2, Hcount.
  destruct Hlab1 as (_ & _ & Hmatched).
  destruct Hlab2 as (_ & Hunmatched & _).
  split; [exact Hlines|]. split; [|split].
  - apply (Hmatched 0%nat [] (0, 1, 7) [(1, 0, 8)]); [reflexivity..|].
    intros t' Ht'. apply list_elem_of_singleton in Ht' as ->. discriminate.
  - apply (Hunmatched 0%nat); [vm_compute; lia|].
    intros t Ht. apply list_elem_of_singleton in Ht as ->. discriminate.
  - rewrite Hcount; [reflexivity | vm_compute; reflexivity].
Defined.

(** C7, as stated, fails: for a target whose largest node id is
    4294967295 the node count handed to fromAdjacencyList is 0, not one
    plus the largest node id. *)
Lemma node_count_wraps_to_0 :
  let L := read_lines Texts.far_node in
  let tg := read_target (NodesStr_3_1 L) (NodesStr_3_2 L) (EdgeTypeStr_3 L) in
  keys3 tg = [4294967295] /\ vals3 tg = [0] /\
  max_node_id tg = 4294967295 /\
  target_graph (B := TwoParts.backend) tg
    = TwoParts.adjacency_list [4294967295] [0] 0 false /\
  Word.uint_add (max_node_id tg) 1 <> max_node_id tg + 1.
Proof. vm_compute. repeat split; discriminate. Qed.

Lemma malformed_text_returns_0_witness :
  StringToWFObject (B := TwoParts.backend)
    (file "0.obj") (file "0.obj") (file "not a graph") (file "out.obj") =
  (0, [ObjectFile
         (generateObject (Backend := TwoParts.backend) 0 0 graph0 graph0
            (TwoParts.adjacency_list [] [] 1 false)
            [Word.sentinel; Word.sentinel] [Word.sentinel; Word.sentinel] [])
         (file "out.obj")]) /\
  triples_3 (read_lines (file "not a graph")) = [].
Proof.
  destruct (malformed_text_returns_0 (B := TwoParts.backend)
              (file "0.obj") (file "0.obj") (file "not a graph") (file "out.obj"))
    as (_ & Hfew & _ & _ & _ & Hall & _).
  split.
  - apply Hall; reflexivity.
  - apply Hfew. vm_compute. lia.
Defined.

End DecodingOnTwoParts.

(** * Further properties of the entry points *)

(** ** [fixVariation]: outcomes and the pass loop *)

Section RepairOutcomes.

Context `{B : Backend}.

Lemma wiggle_loop_runs (n : nat) (graph3 : Graph.t) (wiggle : Wiggle) (obj3 : WFObject) :
  (1 <= length (snd (wiggle_loop (S n) wiggle obj3 graph3)))%nat.
Proof.
  simpl. destruct (fixRelativeTransformations wiggle obj3 graph3) as [w1 o1].
  destruct (numCorrections w1 =? 0); simpl; [lia|].
  destruct (wiggle_loop n w1 o1 graph3) as [[w2 o2] tr]. simpl. lia.
Qed.

(** X1: fixVariation returns 0, 1 or 2; it writes a file exactly when
    it returns 0, and that file is the object as the pass loop left it,
    under the directory of the target followed by the name derived from
    aOutFileName. With status 1 or 2 nothing is written. *)
Theorem repair_writes_only_on_success
    (aFileName1 aFileName2 aFileName3 aOutFileName : StdString.t) :
  let r := fixVariation aFileName1 aFileName2 aFileName3 aOutFileName in
  (status r = 0 \/ status r = 1 \/ status r = 2) /\
  (status r = 0 ->
   written r = [ObjectFile (repaired r)
                   (getDirName aFileName3 ++ fixed_file_name aOutFileName)]) /\
  (status r <> 0 -> written r = []) /\
  (status r <> 1 ->
   repaired r = snd (fst (wiggled aFileName1 aFileName2 aFileName3)) /\
   passes r = snd (wiggled aFileName1 aFileName2 aFileName3)).
Proof.
  intros r. subst r. rewrite fixVariation_cases.
  destruct (negb _).
  - simpl. repeat split; auto; congruence.
  - destruct (wiggled _ _ _) as [[w o] tr].
    destruct (revalidates _ _ _); simpl; repeat split; auto; congruence.
Qed.

(** X2: for a target that passes the first grammar check the pass loop
    runs at least one pass and at most 128; every pass but the last
    reports a correction, and a loop that ends before the 128th pass
    ends at a pass without corrections. *)
Theorem conforming_target_is_wiggled
    (aFileName1 aFileName2 aFileName3 aOutFileName : StdString.t) :
  conforms aFileName1 aFileName2 aFileName3 (read aFileName3) = true ->
  let r := fixVariation aFileName1 aFileName2 aFileName3 aOutFileName in
  (1 <= length (passes r) <= 128)%nat /\
  (forall i c, passes r !! i = Some c -> (S i < length (passes r))%nat -> c <> 0) /\
  ((length (passes r) < 128)%nat -> last (passes r) = Some 0).
Proof.
  intros Hok r. subst r. rewrite fixVariation_cases, Hok. simpl negb. cbv iota.
  pose proof (wiggle_loop_passes 128 (computeCollisionGraph (read aFileName3))
                (Wiggle_init
                   (Wiggle_init Wiggle_new (read aFileName1)
                      (computeCollisionGraph (read aFileName1)))
                   (read aFileName2) (computeCollisionGraph (read aFileName2)))
                (read aFileName3)) as H.
  pose proof (wiggle_loop_runs 127 (computeCollisionGraph (read aFileName3))
                (Wiggle_init
                   (Wiggle_init Wiggle_new (read aFileName1)
                      (computeCollisionGraph (read aFileName1)))
                   (read aFileName2) (computeCollisionGraph (read aFileName2)))
                (read aFileName3)) as Hrun.
  fold (wiggled aFileName1 aFileName2 aFileName3) in H, Hrun.
  destruct (wiggled aFileName1 aFileName2 aFileName3) as [[w o] tr].
  simpl in H, Hrun. destruct H as (Hlen & Hzero & Hlast).
  assert (Hgoal : (1 <= length tr <= 128)%nat /\
                  (forall i c, tr !! i = Some c -> (S i < length tr)%nat -> c <> 0) /\
                  ((length tr < 128)%nat -> last tr = Some 0)).
  { split; [lia|]. split; [|exact Hlast].
    intros i c Hi Hlt Hc. specialize (Hzero i c Hi Hc). lia. }
  destruct (revalidates _ _ _); exact Hgoal.
Qed.

End RepairOutcomes.

(** ** [fixVariation]: the name of the repaired file *)




Lemma fixed_file_name_no_separator (s : StdString.t) :
  no_separator s ->
  StdString.size s < Word.size_modulus ->
  fixed_file_name s = if 5 <=? StdString.size s then take (length s - 5) s else s.
Proof.
  intros Hs Hsize. destruct (Z.leb_spec 5 (StdString.size s)) as [H5|H5].
  - apply fixed_file_name_plain; [assumption|lia].
  - unfold fixed_file_name.
    rewrite find_last_of_none by exact Hs. rewrite Z.eqb_refl.
    pose proof (size_nonneg s) as H0.
    unfold StdString.substr. rewrite Z.sub_0_r. simpl drop.
    rewrite Z.min_r.
    + unfold StdString.size. rewrite Nat2Z.id. apply firstn_all.
    + unfold Word.size_sub, Word.to_size.
      replace (StdString.size s - 5) with (StdString.size s - 5 + Word.size_modulus
                                           + (-1) * Word.size_modulus) by lia.
      rewrite Z.mod_add by (unfold Word.size_modulus; lia).
      rewrite Z.mod_small; unfold Word.size_modulus in *; lia.
Qed.

Lemma fixed_file_name_separator (d b : StdString.t) (c : ascii) :
  StdString.is_one_of (StdString.of_literal "/\") c = true ->
  no_separator b ->
  StdString.size (d ++ c :: b) < Word.size_modulus ->
  fixed_file_name (d ++ c :: b) =
  if 4 <=? StdString.size b then take (length b - 4) b else b.
Proof.
  intros Hc Hb Hsize. destruct (Z.leb_spec 4 (StdString.size b)) as [H4|H4].
  - now apply fixed_file_name_in_directory.
  - unfold fixed_file_name.
    rewrite find_last_of_split by assumption.
    assert (Hlen : StdString.size (d ++ c :: b) = StdString.size d + 1 + StdString.size b).
    { rewrite size_app. unfold StdString.size; simpl length. lia. }
    pose proof (size_nonneg d) as Hd. pose proof (size_nonneg b) as Hb'.
    destruct (Z.eqb_spec (StdString.size d) StdString.npos) as [He|_].
    { unfold StdString.npos in He. lia. }
    unfold Word.size_add, Word.size_sub.
    rewrite (to_size_small (StdString.size d + 1)) by lia.
    rewrite (to_size_small (StdString.size (d ++ c :: b) - StdString.size d)) by lia.
    unfold StdString.substr.
    rewrite Z.min_r.
    + replace (Z.to_nat (StdString.size d + 1)) with (length (d ++ [c]))
        by (rewrite length_app; unfold StdString.size; simpl; lia).
      replace (d ++ c :: b) with ((d ++ [c]) ++ b) at 2 by now rewrite <- app_assoc.
      rewrite drop_app_length.
      replace (Z.to_nat _) with (length b) by (unfold StdString.size in *; lia).
      apply firstn_all.
    + unfold Word.to_size.
      replace (StdString.size (d ++ c :: b) - StdString.size d - 5)
        with (StdString.size b - 4 + Word.size_modulus + (-1) * Word.size_modulus)
        by lia.
      rewrite Z.mod_add by (unfold Word.size_modulus; lia).
      rewrite Z.mod_small; unfold Word.size_modulus in *; lia.
Qed.


(** X3: for an aOutFileName without a path separator fixVariation names
    the repaired file by dropping the last five characters; a name of
    fewer than five characters is kept whole (the unsigned count
    size - 5 wraps around). *)
Theorem repaired_name_without_separator (s : StdString.t) :
  no_separator s ->
  StdString.size s < Word.size_modulus ->
  fixed_file_name s = if 5 <=? StdString.size s then take (length s - 5) s else s.
Proof. apply fixed_file_name_no_separator. Qed.

(** X4: for an aOutFileName with a path separator fixVariation names the
    repaired file by the base name without its last four characters
    (one fewer than without a separator); a base name of fewer than
    four characters is kept whole. *)
Theorem repaired_name_after_separator (d b : StdString.t) (c : ascii) :
  StdString.is_one_of (StdString.of_literal "/\") c = true ->
  no_separator b ->
  StdString.size (d ++ c :: b) < Word.size_modulus ->
  fixed_file_name (d ++ c :: b) =
  if 4 <=? StdString.size b then take (length b - 4) b else b.
Proof. apply fixed_file_name_separator. Qed.


Ltac no_separator_text := repeat constructor.

Section RepairOutcomesOnTwoParts.

Import TwoParts.

Lemma repair_writes_only_on_success_witness :
  written (repair "0.obj" "0.obj" "models/1.obj" "fixed.obj")
    = [ObjectFile (B := TwoParts.backend) 0 (file "models/fixe")] /\
  written (repair "5.obj" "6.obj" "1.obj" "fixed.obj") = [].
Proof.
  destruct (repair_writes_only_on_success (B := TwoParts.backend)
              (file "0.obj") (file "0.obj") (file "models/1.obj") (file "fixed.obj"))
    as (_ & Hok & _ & _).
  destruct (repair_writes_only_on_success (B := TwoParts.backend)
              (file "5.obj") (file "6.obj") (file "1.obj") (file "fixed.obj"))
    as (_ & _ & Hfail & _).
  split.
  - exact (Hok eq_refl).
  - apply Hfail. discriminate.
Defined.

Lemma conforming_target_is_wiggled_witness :
  (1 <= length (passes (repair "5.obj" "6.obj" "3.obj" "out.obj")) <= 128)%nat /\
  last (passes (repair "5.obj" "6.obj" "3.obj" "out.obj")) = Some 0.
Proof.
  destruct (conforming_target_is_wiggled (B := TwoParts.backend)
              (file "5.obj") (file "6.obj") (file "3.obj") (file "out.obj")
              eq_refl)
    as (Hlen & _ & Hlast).
  split; [exact Hlen|]. apply Hlast. vm_compute. lia.
Defined.

Lemma repaired_name_without_separator_witness :
  fixed_file_name (file "name.obj") = file "nam" /\
  fixed_file_name (file "a.o") = file "a.o".
Proof.
  split.
  - apply (repaired_name_without_separator (file "name.obj"));
      [no_separator_text | reflexivity].
  - apply (repaired_name_without_separator (file "a.o"));
      [no_separator_text | reflexivity].
Defined.

Lemma repaired_name_after_separator_witness :
  fixed_file_name (file "dir/name.obj") = file "name" /\
  fixed_file_name (file "dir/a.o") = file "a.o".
Proof.
  split.
  - apply (repaired_name_after_separator (file "dir") (file "name.obj") "/"%char);
      [reflexivity | no_separator_text | reflexivity].
  - apply (repaired_name_after_separator (file "dir") (file "a.o") "/"%char);
      [reflexivity | no_separator_text | reflexivity].
Defined.


End RepairOutcomesOnTwoParts.

(** ** [WFObjectToString]: the first line *)

Lemma find_first_of_from_none (chars s : StdString.t) : forall i,
  Forall (fun c => StdString.is_one_of chars c = false) s ->
  StdString.find_first_of_from chars s i = StdString.npos.
Proof.
  induction s as [|c s IH]; intros i Hall; [reflexivity|].
  inversion Hall as [|? ? Hc Hs]; subst. simpl. rewrite Hc. now apply IH.
Qed.

Lemma find_first_of_from_split (chars a b : StdString.t) (c : ascii) : forall i,
  Forall (fun c => StdString.is_one_of chars c = false) a ->
  StdString.is_one_of chars c = true ->
  StdString.find_first_of_from chars (a ++ c :: b) i = i + StdString.size a.
Proof.
  induction a as [|x a IH]; intros i Hall Hc; simpl.
  - rewrite Hc. unfold StdString.size. simpl. lia.
  - inversion Hall as [|? ? Hx Ha]; subst. rewrite Hx, IH by assumption.
    unfold StdString.size. simpl length. lia.
Qed.

(** [s.substr(0u, s.find_first_of("\n"))] is the text before the first
    line break. *)
Lemma first_line_split (a b : StdString.t) :
  StdString.newline ∉ a ->
  StdString.substr (a ++ StdString.newline :: b) 0
    (StdString.find_first_of (a ++ StdString.newline :: b) [StdString.newline]) = a.
Proof.
  intros Ha. unfold StdString.find_first_of.
  rewrite find_first_of_from_split;
    [|now apply not_newline_is_one_of | reflexivity].
  apply substr_front.
Qed.

Lemma first_line_whole (s : StdString.t) :
  StdString.newline ∉ s ->
  StdString.size s < Word.size_modulus ->
  StdString.substr s 0 (StdString.find_first_of s [StdString.newline]) = s.
Proof.
  intros Hs Hsize. unfold StdString.find_first_of.
  rewrite find_first_of_from_none by now apply not_newline_is_one_of.
  unfold StdString.substr. rewrite Z.sub_0_r. simpl drop.
  rewrite Z.min_r by (unfold StdString.npos; lia).
  unfold StdString.size. rewrite Nat2Z.id. apply firstn_all.
Qed.

Lemma c_str_NUL_free (s : StdString.t) : StdString.NUL ∉ StdString.c_str s.
Proof.
  induction s as [|c s IH]; simpl; [apply not_elem_of_nil|].
  destruct (Ascii.eqb_spec c StdString.NUL) as [->|Hne]; [apply not_elem_of_nil|].
  apply not_elem_of_cons. split; [congruence | assumption].
Qed.

Section FirstLine.

Context `{B : Backend}.

(** X6: WFObjectToString returns the first line of the structural text
    of one sample of a fresh converter: the text before its first line
    break, and all of it when it has none. The returned text holds no
    line break. *)
Theorem first_line_returned (aFilename : StdString.t) (p : Memory.Process) :
  let obj := read aFilename in
  let graph := computeCollisionGraph obj in
  let base := StdString.c_str (fst (fst (convert Converter_new obj graph))) in
  StdString.size base < Word.size_modulus ->
  exists text,
    returned_text (WFObjectToString aFilename p) = Some text /\
    (StdString.newline ∉ text) /\
    (StdString.newline ∉ base -> text = base) /\
    (StdString.newline ∈ base ->
     exists rest, base = text ++ StdString.newline :: rest).
Proof.
  intros obj graph base Hsize.
  assert (Hret : returned_text (WFObjectToString aFilename p) =
                 Some (StdString.c_str
                         (StdString.substr base 0
                            (StdString.find_first_of base [StdString.newline])))).
  { unfold WFObjectToString, returned_text. cbn [fst snd].
    apply replace_outputString_text. }
  destruct (decide (StdString.newline ∈ base)) as [Hin|Hnin].
  - apply list_elem_of_split_l in Hin as (a & b & Hbase & Ha).
    rewrite Hbase, first_line_split in Hret by assumption.
    assert (Hnul : StdString.NUL ∉ a).
    { intros Hnul. apply (c_str_NUL_free (fst (fst (convert Converter_new obj graph)))).
      fold base. rewrite Hbase. apply elem_of_app. now left. }
    rewrite c_str_no_NUL in Hret by assumption.
    exists a. split; [exact Hret|]. split; [exact Ha|]. split.
    + intros Hno. exfalso. apply Hno. rewrite Hbase.
      apply elem_of_app. right. apply list_elem_of_here.
    + intros _. exists b. exact Hbase.
  - rewrite first_line_whole in Hret by assumption.
    rewrite c_str_no_NUL in Hret by apply c_str_NUL_free.
    exists base. split; [exact Hret|]. split; [exact Hnin|].
    split; [reflexivity | contradiction].
Qed.

End FirstLine.

(** ** The retained buffer over sequences of calls *)

Lemma free_then_replace_retains_one (result : StdString.t) (p : Memory.Process) :
  retains_one p ->
  retains_one (Memory.replace_outputString result (Memory.free_outputString p)).
Proof.
  intros [[Hout Hheap]|(b & text & Hout & Hheap)]; right.
  - unfold Memory.free_outputString. rewrite Hout. simpl.
    eexists _, _. split; [reflexivity|]. rewrite Hheap. apply insert_empty.
  - unfold Memory.free_outputString. rewrite Hout. simpl.
    eexists _, _. split; [reflexivity|].
    rewrite Hheap, delete_singleton_eq. apply insert_empty.
Qed.

Lemma start_retains_one : retains_one Memory.start.
Proof. left. split; reflexivity. Qed.

Lemma replace_well_formed (result : StdString.t) (p : Memory.Process) :
  Memory.well_formed p -> Memory.well_formed (Memory.replace_outputString result p).
Proof.
  intros [Hheap Hout]. split.
  - intros b [x Hx]. simpl in *.
    destruct (decide (b = Memory.next_address p)) as [->|Hne]; [lia|].
    rewrite lookup_insert_ne in Hx by congruence.
    apply Nat.lt_lt_succ_r. apply Hheap. eauto.
  - intros b Hb. simpl in Hb. injection Hb as <-. simpl. lia.
Qed.

Section CallFacts.

Context `{B : Backend}.

Lemma call_well_formed (c : Call) (p : Memory.Process) :
  Memory.well_formed p -> Memory.well_formed (snd (fst (call c p))).
Proof.
  intros Hp. destruct c as [f|f a|f1 f2]; simpl.
  - now apply free_then_replace_well_formed.
  - unfold WFObjectToStrings. destruct (negb _); simpl; [assumption|].
    now apply free_then_replace_well_formed.
  - now apply replace_well_formed.
Qed.

Lemma run_well_formed (calls : list Call) : forall p,
  Memory.well_formed p -> Memory.well_formed (run calls p).
Proof.
  induction calls as [|c calls IH]; intros p Hp; [assumption|].
  apply IH. now apply call_well_formed.
Qed.

Lemma call_retains_one (c : Call) (p : Memory.Process) :
  is_CallRandomVariations c = false ->
  retains_one p -> retains_one (snd (fst (call c p))).
Proof.
  intros Hc Hp. destruct c as [f|f a|f1 f2]; simpl; [| |discriminate].
  - now apply free_then_replace_retains_one.
  - unfold WFObjectToStrings. destruct (negb _); simpl; [assumption|].
    now apply free_then_replace_retains_one.
Qed.

(** X7: as long as only WFObjectToString and WFObjectToStrings are
    called, in any number and order from program start, at most one
    block is live: either [outputString] is still [NULL] and the heap
    is empty, or the live blocks are exactly the one [outputString]
    points to. *)
Theorem freeing_calls_never_leak (calls : list Call) :
  Forall (fun c => is_CallRandomVariations c = false) calls ->
  retains_one (run calls Memory.start) /\
  (size (Memory.heap (run calls Memory.start)) <= 1)%nat.
Proof.
  intros Hcalls.
  assert (Hone : retains_one (run calls Memory.start)).
  { generalize start_retains_one. generalize Memory.start as p.
    induction Hcalls as [|c calls Hc Hcalls IH]; intros p Hp; [assumption|].
    apply IH. now apply call_retains_one. }
  split; [exact Hone|].
  destruct Hone as [[_ Hheap]|(b & text & _ & Hheap)]; rewrite Hheap.
  - rewrite map_size_empty. lia.
  - rewrite map_size_singleton. lia.
Qed.

(** X8: WFObjectRandomVariations never frees: every block that is live
    before the call is live after it with the same text, one more block
    is live, and [outputString] points to the new one. *)
Theorem random_variations_only_allocates (aFileName1 aFileName2 : StdString.t)
    (p : Memory.Process) :
  Memory.well_formed p ->
  let p' := snd (fst (WFObjectRandomVariations aFileName1 aFileName2 p)) in
  (forall b text, Memory.heap p !! b = Some text -> Memory.heap p' !! b = Some text) /\
  size (Memory.heap p') = S (size (Memory.heap p)) /\
  Memory.outputString p' = Some (Memory.next_address p) /\
  Memory.heap p !! Memory.next_address p = None.
Proof.
  intros [Hheap Hout] p'. subst p'. unfold WFObjectRandomVariations. simpl.
  assert (Hfresh : Memory.heap p !! Memory.next_address p = None).
  { destruct (Memory.heap p !! Memory.next_address p) eqn:E; [|reflexivity].
    assert (Hlt : (Memory.next_address p < Memory.next_address p)%nat)
      by (apply Hheap; eauto).
    lia. }
  split; [|split; [|split]].
  - intros b text Hb. rewrite lookup_insert_ne; [assumption|].
    intros <-. congruence.
  - now apply map_size_insert_None.
  - reflexivity.
  - exact Hfresh.
Qed.

End CallFacts.

(** X11: the node-id text that WFObjectToStrings appends is cut at its
    last line break: what follows the last line break is dropped with
    it, and a text without a line break is appended whole. *)
Theorem node_ids_cut_at_last_line_break (ids : StdString.t) :
  StdString.size ids < Word.size_modulus ->
  (forall a b, ids = a ++ StdString.newline :: b -> StdString.newline ∉ b ->
               strip_last_line_break ids = a) /\
  (StdString.newline ∉ ids -> strip_last_line_break ids = ids).
Proof.
  intros Hsize. split.
  - intros a b -> Hb. now apply strip_last_line_break_split.
  - intros Hno. unfold strip_last_line_break.
    rewrite find_last_of_none by now apply not_newline_is_one_of.
    unfold StdString.substr. rewrite Z.sub_0_r. simpl drop.
    rewrite Z.min_r by (unfold StdString.npos; lia).
    unfold StdString.size. rewrite Nat2Z.id. apply firstn_all.
Qed.

(** ** [StringToWFObject]: more on the decoding *)

Lemma tokens_fuel_irrelevant : forall (fuel fuel' : nat) (ss : IStream.t),
  (length ss < fuel)%nat -> (length ss < fuel')%nat ->
  tokens_fuel fuel ss = tokens_fuel fuel' ss.
Proof.
  induction fuel as [|fuel IH]; intros fuel' ss H H'; [lia|].
  destruct fuel' as [|fuel']; [lia|]. simpl.
  destruct (IStream.extract_uint ss) as [[v r]|] eqn:E; [|reflexivity].
  apply extract_uint_shrinks in E. f_equal. apply IH; lia.
Qed.

Lemma tokens_step (ss rest : IStream.t) (v : Z) :
  IStream.extract_uint ss = Some (v, rest) -> tokens ss = v :: tokens rest.
Proof.
  intros E. unfold tokens at 1. simpl. rewrite E. f_equal.
  apply extract_uint_shrinks in E. apply tokens_fuel_irrelevant; lia.
Qed.

Lemma tokens_stop (ss : IStream.t) :
  IStream.extract_uint ss = None -> tokens ss = [].
Proof. intros E. unfold tokens. simpl. now rewrite E. Qed.

Lemma zip_nil_right {A E} (l : list A) : zip l (@nil E) = [].
Proof. now destruct l. Qed.

Lemma triples_zip_tokens (n : nat) : forall l1 l2 l3 : IStream.t,
  (length l1 < n)%nat ->
  IStream.triples l1 l2 l3 = zip (zip (tokens l1) (tokens l2)) (tokens l3).
Proof.
  induction n as [|n IH]; intros l1 l2 l3 Hn; [lia|].
  destruct (IStream.extract_uint l1) as [[n1 r1]|] eqn:E1.
  - destruct (IStream.extract_uint l2) as [[n2 r2]|] eqn:E2.
    + destruct (IStream.extract_uint l3) as [[ty r3]|] eqn:E3.
      * rewrite (triples_step _ _ _ _ _ _ _ _ _ E1 E2 E3).
        rewrite (tokens_step _ _ _ E1), (tokens_step _ _ _ E2), (tokens_step _ _ _ E3).
        simpl. f_equal. apply IH. apply extract_uint_shrinks in E1. lia.
      * rewrite triples_stop by auto. rewrite (tokens_stop l3 E3).
        now rewrite zip_nil_right.
    + rewrite triples_stop by auto. rewrite (tokens_stop l2 E2).
      now rewrite zip_nil_right.
  - rewrite triples_stop by auto. now rewrite (tokens_stop l1 E1).
Qed.

(** X12: the triples that a group of three lines yields are the numbers
    of the three lines taken position by position: the i-th triple is
    the i-th number of each line, and there are as many triples as the
    line with the fewest numbers has numbers; what the longer lines
    hold beyond that is ignored. *)
Theorem triples_are_columns (l1 l2 l3 : IStream.t) :
  IStream.triples l1 l2 l3 = zip (zip (tokens l1) (tokens l2)) (tokens l3) /\
  length (IStream.triples l1 l2 l3) =
    Nat.min (Nat.min (length (tokens l1)) (length (tokens l2))) (length (tokens l3)).
Proof.
  assert (H : IStream.triples l1 l2 l3 = zip (zip (tokens l1) (tokens l2)) (tokens l3))
    by (apply (triples_zip_tokens (S (length l1))); lia).
  split; [exact H|]. rewrite H. now rewrite !length_zip.
Qed.

Section Labels.

Context `{B : Backend}.

(** X13: labels are directional and exact: a stored pair of an exemplar
    keeps the sentinel (unsigned)-1 unless some triple of the text has
    that very node pair in that order; a triple for (v, u) does not
    label the stored pair (u, v). *)
Theorem only_equal_pairs_are_labelled (graph : Graph.t) (l1 l2 l3 : StdString.t)
    (e : nat) :
  (e < Graph.numEdges graph)%nat ->
  (forall t, t ∈ IStream.triples l1 l2 l3 ->
     ~ (Graph.adjacencyKeys graph !! e = Some (fst (fst t)) /\
        Graph.adjacencyVals graph !! e = Some (snd (fst t)))) ->
  label_edges graph l1 l2 l3 !! e = Some Word.sentinel.
Proof.
  intros He Hno.
  destruct (label_edges_labelled graph l1 l2 l3) as (_ & Hunmatched & _).
  apply Hunmatched; [assumption|].
  intros t Ht Hm. apply matched_edge_first in Hm as (_ & Hk & Hv & _).
  apply (Hno t Ht). now split.
Qed.

(** X14: of stored pairs that are equal only the first is ever
    labelled: a stored pair that repeats an earlier one keeps the
    sentinel whatever the text is (the scan stops at the first
    match). *)
Theorem repeated_pair_is_never_labelled (graph : Graph.t) (l1 l2 l3 : StdString.t)
    (e' e : nat) :
  (e' < e)%nat -> (e < Graph.numEdges graph)%nat ->
  Graph.adjacencyKeys graph !! e' = Graph.adjacencyKeys graph !! e ->
  Graph.adjacencyVals graph !! e' = Graph.adjacencyVals graph !! e ->
  label_edges graph l1 l2 l3 !! e = Some Word.sentinel.
Proof.
  intros Hlt He Hk Hv.
  destruct (label_edges_labelled graph l1 l2 l3) as (_ & Hunmatched & _).
  apply Hunmatched; [assumption|].
  intros t Ht Hm. apply matched_edge_first in Hm as (_ & Hke & Hve & Hfirst).
  apply (Hfirst e' Hlt). split; congruence.
Qed.

(** X15: the three lists of the target are parallel: they have the
    length of the list of triples, every entry is an unsigned int, and
    no node id exceeds max_node_id, which is itself an unsigned int. *)
Theorem target_lists_are_parallel (l1 l2 l3 : StdString.t) :
  let tg := read_target l1 l2 l3 in
  let n := length (IStream.triples l1 l2 l3) in
  length (keys3 tg) = n /\ length (vals3 tg) = n /\ length (edgeTypes3 tg) = n /\
  0 <= max_node_id tg <= Word.UINT_MAX /\
  Forall (fun k => 0 <= k <= max_node_id tg) (keys3 tg) /\
  Forall (fun v => 0 <= v <= max_node_id tg) (vals3 tg) /\
  Forall (fun ty => 0 <= ty <= Word.UINT_MAX) (edgeTypes3 tg).
Proof.
  intros tg n. subst tg n. rewrite read_target_triples. cbn [keys3 vals3 edgeTypes3 max_node_id].
  destruct (max_id_spec l1 l2 l3) as (Hrange & Hupper & _).
  pose proof (triples_range l1 l2 l3) as Hall.
  rewrite !length_map. repeat split; try lia.
  - apply Forall_map, Forall_forall. intros t Ht.
    rewrite Forall_forall in Hall. destruct (Hall t Ht) as (H1 & _).
    destruct (Hupper t Ht). simpl. lia.
  - apply Forall_map, Forall_forall. intros t Ht.
    rewrite Forall_forall in Hall. destruct (Hall t Ht) as (_ & H2 & _).
    destruct (Hupper t Ht). simpl. lia.
  - apply Forall_map, Forall_forall. intros t Ht.
    rewrite Forall_forall in Hall. destruct (Hall t Ht) as (_ & _ & H3).
    simpl. lia.
Qed.

(** X16: the line break after the ninth line is optional:
    StringToWFObject does the same on a text whose ninth line is not
    closed as on the text with every line closed. *)
Theorem final_line_break_is_optional
    (aFileName1 aFileName2 aOutFileName : StdString.t) (L : Lines) :
  line_free L ->
  read_lines (unlines_open L) = L /\
  StringToWFObject aFileName1 aFileName2 (unlines_open L) aOutFileName =
  StringToWFObject aFileName1 aFileName2 (unlines L []) aOutFileName.
Proof.
  intros Hfree.
  assert (Hopen : read_lines (unlines_open L) = L).
  { destruct Hfree as (H1 & H2 & H3 & H4 & H5 & H6 & H7 & H8 & H9).
    unfold read_lines, unlines_open.
    rewrite !getline_line by assumption.
    rewrite getline_last by assumption. now destruct L. }
  split; [exact Hopen|].
  unfold StringToWFObject. now rewrite Hopen, read_lines_unlines.
Qed.

End Labels.

(** ** [testRandomNumberGenerator] *)

Section RandomTestFacts.

Variable float : Type.
Variable below_minus_EPS : float -> bool.
Variable above_one_plus_EPS : float -> bool.
Variable less_than_eighths : nat -> float -> bool.
Variable Generator : Type.
Variable XorShift32Plus : Z -> Z -> Generator.
Variable genRand : Generator -> float * Generator.

Local Abbreviation bin_of := (RandomTest.bin_of float less_than_eighths).
Local Abbreviation mark := (RandomTest.mark float less_than_eighths).
Local Abbreviation in_range := (RandomTest.in_range float below_minus_EPS above_one_plus_EPS).
Local Abbreviation sample_loop :=
  (RandomTest.sample_loop float below_minus_EPS above_one_plus_EPS
     less_than_eighths Generator genRand).
Local Abbreviation drawn := (RandomTest.drawn float Generator genRand).
Local Abbreviation trial :=
  (RandomTest.trial float below_minus_EPS above_one_plus_EPS
     less_than_eighths Generator XorShift32Plus genRand).
Local Abbreviation trial_loop :=
  (RandomTest.trial_loop float below_minus_EPS above_one_plus_EPS
     less_than_eighths Generator XorShift32Plus genRand).
Local Abbreviation test :=
  (RandomTest.testRandomNumberGenerator float below_minus_EPS above_one_plus_EPS
     less_than_eighths Generator XorShift32Plus genRand).
Local Abbreviation samples_of := (RandomTest.samples_of float Generator XorShift32Plus genRand).

Lemma bin_of_bound (r : float) : (bin_of r < 8)%nat.
Proof.
  unfold RandomTest.bin_of.
  repeat (destruct (less_than_eighths _ r); [lia|]). lia.
Qed.

Lemma flag_raise (k j : nat) (b : RandomTest.Bins) :
  (k < 8)%nat -> (j < 8)%nat ->
  RandomTest.flag j (RandomTest.raise k b) = Nat.eqb k j || RandomTest.flag j b.
Proof.
  intros Hk Hj.
  do 8 (destruct j as [|j];
        [do 8 (destruct k as [|k]; [reflexivity|]); lia|]).
  lia.
Qed.

Lemma all_covered_flags (b : RandomTest.Bins) :
  RandomTest.all_covered b = true <->
  forall j, (j < 8)%nat -> RandomTest.flag j b = true.
Proof.
  unfold RandomTest.all_covered. split.
  - intros H j Hj. repeat (apply andb_prop in H as [H ?]).
    do 8 (destruct j as [|j]; [assumption|]). lia.
  - intros H.
    pose proof (H 0%nat ltac:(lia)) as H0. pose proof (H 1%nat ltac:(lia)) as H1.
    pose proof (H 2%nat ltac:(lia)) as H2. pose proof (H 3%nat ltac:(lia)) as H3.
    pose proof (H 4%nat ltac:(lia)) as H4. pose proof (H 5%nat ltac:(lia)) as H5.
    pose proof (H 6%nat ltac:(lia)) as H6. pose proof (H 7%nat ltac:(lia)) as H7.
    simpl in H0, H1, H2, H3, H4, H5, H6, H7.
    now rewrite H0, H1, H2, H3, H4, H5, H6, H7.
Qed.

Lemma flag_foldl_mark (rs : list float) : forall (b : RandomTest.Bins) (j : nat),
  (j < 8)%nat ->
  RandomTest.flag j (foldl mark b rs) = true <->
  RandomTest.flag j b = true \/ exists r, r ∈ rs /\ bin_of r = j.
Proof.
  induction rs as [|r rs IH]; intros b j Hj; simpl.
  - split; [now left|]. intros [H|(r & Hr & _)]; [assumption | inversion Hr].
  - rewrite IH by assumption. unfold RandomTest.mark.
    rewrite flag_raise by (assumption || apply bin_of_bound).
    rewrite orb_true_iff, Nat.eqb_eq. split.
    + intros [[H|H]|(r' & Hr' & Hb)].
      * right. exists r. split; [apply list_elem_of_here | assumption].
      * now left.
      * right. exists r'. split; [now apply list_elem_of_further | assumption].
    + intros [H|(r' & Hr' & Hb)]; [left; now right|].
      apply elem_of_cons in Hr' as [->|Hr'].
      * left. now left.
      * right. exists r'. now split.
Qed.

(** The sample loop: it returns from inside at the first sample out of
    range, and otherwise ends with every sample marked. *)
Lemma sample_loop_spec (n : nat) : forall (g : Generator) (b : RandomTest.Bins),
  match sample_loop n g b with
  | inr b' => Forall in_range (drawn n g) /\ b' = foldl mark b (drawn n g)
  | inl code => (code = 1 \/ code = 2) /\ ~ Forall in_range (drawn n g)
  end.
Proof.
  induction n as [|n IH]; intros g b; simpl.
  - split; [constructor | reflexivity].
  - destruct (genRand g) as [r g'].
    destruct (below_minus_EPS r) eqn:Hlow.
    { split; [now left|]. intros H. inversion H as [|? ? [Hr _] _]; subst. congruence. }
    destruct (above_one_plus_EPS r) eqn:Hhigh.
    { split; [now right|]. intros H. inversion H as [|? ? [_ Hr] _]; subst. congruence. }
    specialize (IH g' (mark b r)).
    destruct (sample_loop n g' (mark b r)) as [code|b'].
    + destruct IH as [Hcode Hnot]. split; [assumption|].
      intros H. inversion H; subst. contradiction.
    + destruct IH as [Hall ->]. split; [|reflexivity].
      constructor; [now split | assumption].
Qed.

Lemma trial_loop_first (m : nat) (aConst1 : Z) :
  trial_loop (S m) aConst1 =
  match trial aConst1 with Some code => code | None => 0 end.
Proof.
  induction m as [|m IH].
  - simpl. now destruct (trial aConst1).
  - change (trial_loop (S (S m)) aConst1)
      with (match trial aConst1 with
            | Some code => code
            | None => trial_loop (S m) aConst1
            end).
    rewrite IH. now destruct (trial aConst1).
Qed.

(** X17: every turn of the loop over the 500 trials builds its
    generator from the same two constants, so all trials draw the same
    samples: testRandomNumberGenerator returns what its first trial
    returns, and 0 when the first trial passes. *)
Theorem all_trials_alike (aConst1 : Z) :
  test aConst1 = match trial aConst1 with Some code => code | None => 0 end.
Proof. apply (trial_loop_first 499). Qed.

(** X18: testRandomNumberGenerator returns 0, 1, 2 or 3. It returns 0
    exactly when every one of the 10000 samples of a trial is in range
    (neither below -EPS nor above 1 + EPS) and each of the eight bins
    holds a sample; 3 exactly when all samples are in range and some
    bin holds none; 1 or 2 exactly when some sample is out of range. *)
Theorem random_test_result (aConst1 : Z) :
  let result := test aConst1 in
  let rs := samples_of aConst1 in
  (result = 0 \/ result = 1 \/ result = 2 \/ result = 3) /\
  (result = 0 <->
   Forall in_range rs /\
   forall j, (j < 8)%nat -> exists r, r ∈ rs /\ bin_of r = j) /\
  (result = 3 <->
   Forall in_range rs /\
   exists j, (j < 8)%nat /\ forall r, r ∈ rs -> bin_of r <> j) /\
  (result = 1 \/ result = 2 <-> ~ Forall in_range rs).
Proof.
  intros result rs. subst result rs.
  unfold RandomTest.testRandomNumberGenerator. rewrite (trial_loop_first 499).
  unfold RandomTest.trial, RandomTest.samples_of. cbv zeta.
  set (g := XorShift32Plus (Word.uint_add aConst1 22)
                           (Word.to_uint (22 * 22 * aConst1))).
  generalize 10000%nat as n. intros n.
  pose proof (sample_loop_spec n g RandomTest.no_bin) as Hloop.
  destruct (sample_loop n g RandomTest.no_bin) as [code|b].
  - destruct Hloop as [Hcode Hnot].
    split; [destruct Hcode; auto|].
    split; [split; [intros ->; destruct Hcode; discriminate | intros [H _]; contradiction]|].
    split; [split; [intros ->; destruct Hcode; discriminate | intros [H _]; contradiction]|].
    split; [intros _; assumption | intros _; assumption].
  - destruct Hloop as [Hall ->].
    assert (Hcov : RandomTest.all_covered (foldl mark RandomTest.no_bin (drawn n g)) = true
                   <-> forall j, (j < 8)%nat ->
                         exists r, r ∈ drawn n g /\ bin_of r = j).
    { rewrite all_covered_flags. split.
      - intros H j Hj. specialize (H j Hj).
        apply flag_foldl_mark in H as [H|H]; [|assumption|assumption].
        exfalso. revert H. do 8 (destruct j as [|j]; [discriminate|]). lia.
      - intros H j Hj. apply flag_foldl_mark; [assumption|]. right. now apply H. }
    destruct (RandomTest.all_covered _) eqn:Hc; simpl.
    + assert (Hevery := proj1 Hcov eq_refl).
      split; [auto|].
      split; [split; [intros _; now split | reflexivity]|].
      split.
      * split; [discriminate|]. intros [_ (j & Hj & Hnone)].
        destruct (Hevery j Hj) as (r & Hr & Hb). exfalso. now apply (Hnone r).
      * split; [intros [H|H]; discriminate | contradiction].
    + split; [auto|].
      split.
      * split; [discriminate|]. intros [_ Hevery].
        apply Hcov in Hevery. discriminate.
      * split.
        -- split; [|reflexivity]. intros _. split; [assumption|].
           assert (Hex : exists j, (j < 8)%nat /\
                      RandomTest.flag j (foldl mark RandomTest.no_bin (drawn n g))
                      = false).
           { destruct (RandomTest.flag 0 (foldl mark RandomTest.no_bin (drawn n g))) eqn:F0;
               [|exists 0%nat; split; [lia|assumption]].
             destruct (RandomTest.flag 1 (foldl mark RandomTest.no_bin (drawn n g))) eqn:F1;
               [|exists 1%nat; split; [lia|assumption]].
             destruct (RandomTest.flag 2 (foldl mark RandomTest.no_bin (drawn n g))) eqn:F2;
               [|exists 2%nat; split; [lia|assumption]].
             destruct (RandomTest.flag 3 (foldl mark RandomTest.no_bin (drawn n g))) eqn:F3;
               [|exists 3%nat; split; [lia|assumption]].
             destruct (RandomTest.flag 4 (foldl mark RandomTest.no_bin (drawn n g))) eqn:F4;
               [|exists 4%nat; split; [lia|assumption]].
             destruct (RandomTest.flag 5 (foldl mark RandomTest.no_bin (drawn n g))) eqn:F5;
               [|exists 5%nat; split; [lia|assumption]].
             destruct (RandomTest.flag 6 (foldl mark RandomTest.no_bin (drawn n g))) eqn:F6;
               [|exists 6%nat; split; [lia|assumption]].
             destruct (RandomTest.flag 7 (foldl mark RandomTest.no_bin (drawn n g))) eqn:F7;
               [|exists 7%nat; split; [lia|assumption]].
             exfalso. assert (Hall8 : RandomTest.all_covered
                        (foldl mark RandomTest.no_bin (drawn n g)) = true).
             { apply all_covered_flags. intros j Hj.
               do 8 (destruct j as [|j]; [assumption|]). lia. }
             congruence. }
           destruct Hex as (j & Hj & Hflag). exists j. split; [assumption|].
           intros r Hr Hb.
           assert (Htrue : RandomTest.flag j
                     (foldl mark RandomTest.no_bin (drawn n g)) = true).
           { apply flag_foldl_mark; [assumption|]. right. now exists r. }
           congruence.
        -- split; [intros [H|H]; discriminate | contradiction].
Qed.

End RandomTestFacts.

(** ** The matrix of the first revision's self test *)



Section SelfTestMatrix.

Variable RAND_MAX : Z.
Variable rand : nat -> Z.






End SelfTestMatrix.

(** ** The further properties on concrete inputs *)

Section FurtherOnTwoParts.

Import TwoParts.

Lemma first_line_returned_witness :
  exists text,
    returned_text (toString "0.obj" Memory.start) = Some text /\
    (StdString.newline ∉ text) /\
    exists rest, file "0" ++ [StdString.newline] = text ++ StdString.newline :: rest.
Proof.
  destruct (first_line_returned (B := TwoParts.backend) (file "0.obj") Memory.start)
    as (text & Hret & Hno & _ & Hsplit); [reflexivity|].
  exists text. split; [exact Hret|]. split; [exact Hno|].
  apply Hsplit. vm_compute. apply list_elem_of_further, list_elem_of_here.
Defined.

Lemma freeing_calls_never_leak_witness :
  (size (Memory.heap (run Inputs.freeing_calls Memory.start)) <= 1)%nat.
Proof.
  apply (freeing_calls_never_leak (B := TwoParts.backend) Inputs.freeing_calls).
  repeat constructor.
Defined.

Lemma random_variations_only_allocates_witness :
  size (Memory.heap (snd (fst (randomVariations "0.obj" "0.obj" Memory.start)))) = 1%nat.
Proof.
  destruct (random_variations_only_allocates (B := TwoParts.backend)
              (file "0.obj") (file "0.obj") Memory.start start_well_formed)
    as (_ & Hsize & _).
  exact Hsize.
Defined.

Lemma node_ids_cut_at_last_line_break_witness :
  strip_last_line_break Inputs.open_ids = file "1 2".
Proof.
  destruct (node_ids_cut_at_last_line_break Inputs.open_ids) as [Hcut _];
    [reflexivity|].
  apply (Hcut (file "1 2") (file "3")); [reflexivity|not_in_text].
Defined.

Lemma only_equal_pairs_are_labelled_witness :
  label_edges graph0 (file "1") (file "0") (file "9") !! 0%nat = Some Word.sentinel.
Proof.
  apply (only_equal_pairs_are_labelled graph0 (file "1") (file "0") (file "9") 0%nat).
  - vm_compute. lia.
  - intros t Ht. apply list_elem_of_singleton in Ht as ->.
    intros [Hk _]. discriminate Hk.
Defined.

Lemma repeated_pair_is_never_labelled_witness :
  label_edges Inputs.repeated_pair (file "0 0") (file "1 1") (file "7 8") !! 1%nat
  = Some Word.sentinel.
Proof.
  apply (repeated_pair_is_never_labelled Inputs.repeated_pair
           (file "0 0") (file "1 1") (file "7 8") 0%nat 1%nat);
    [lia | vm_compute; lia | reflexivity | reflexivity].
Defined.

Lemma final_line_break_is_optional_witness :
  read_lines (unlines_open Texts.triangle_lines) = Texts.triangle_lines.
Proof.
  apply (final_line_break_is_optional (B := TwoParts.backend)
           (file "0.obj") (file "0.obj") (file "out.obj") Texts.triangle_lines).
  exact triangle_line_free.
Defined.

End FurtherOnTwoParts.

Lemma random_test_result_witness :
  ConstantGenerator.testRandomNumberGenerator 7 = 3 /\
  Forall ConstantGenerator.in_range (ConstantGenerator.samples_of 7) /\
  exists j, (j < 8)%nat /\
    forall r, r ∈ ConstantGenerator.samples_of 7 -> ConstantGenerator.bin_of r <> j.
Proof.
  assert (H3 : ConstantGenerator.testRandomNumberGenerator 7 = 3)
    by (vm_compute; reflexivity).
  split; [exact H3|].
  apply (random_test_result Z ConstantGenerator.below_minus_EPS
           ConstantGenerator.above_one_plus_EPS ConstantGenerator.less_than_eighths
           Z ConstantGenerator.XorShift32Plus ConstantGenerator.genRand 7).
  exact H3.
Defined.



(** ** The pass loop as repeated passes *)

Section PassFacts.

Context `{B : Backend}.

Lemma wiggle_loop_after_passes (n : nat) (graph3 : Graph.t) :
  forall (wiggle : Wiggle) (obj3 : WFObject),
  let '(wiggle', obj3', corrections) := wiggle_loop n wiggle obj3 graph3 in
  (wiggle', obj3') = after_passes (length corrections) wiggle obj3 graph3 /\
  forall i c, corrections !! i = Some c ->
    c = numCorrections (fst (after_passes (S i) wiggle obj3 graph3)).
Proof.
  induction n as [|n IH]; intros wiggle obj3; simpl.
  - split; [reflexivity|]. intros i c Hi. discriminate.
  - destruct (fixRelativeTransformations wiggle obj3 graph3) as [w1 o1] eqn:E.
    destruct (numCorrections w1 =? 0).
    + simpl. rewrite E. split; [reflexivity|].
      intros [|i] c Hi; [|discriminate]. injection Hi as <-. reflexivity.
    + specialize (IH w1 o1).
      destruct (wiggle_loop n w1 o1 graph3) as [[w2 o2] tr].
      destruct IH as [Hend Hnth]. simpl. rewrite E. split; [exact Hend|].
      intros [|i] c Hi; simpl in Hi.
      * injection Hi as <-. reflexivity.
      * apply (Hnth i c Hi).
Qed.

(** X21: for a target that passes the first grammar check, the object
    that fixVariation ends with is the target after as many calls of
    fixRelativeTransformations as passes were executed, each on the
    result of the one before and on the collision graph of the target
    as loaded; the i-th recorded count is the numCorrections left by
    the i-th call. *)
Theorem repaired_is_iterated_pass
    (aFileName1 aFileName2 aFileName3 aOutFileName : StdString.t) :
  conforms aFileName1 aFileName2 aFileName3 (read aFileName3) = true ->
  let r := fixVariation aFileName1 aFileName2 aFileName3 aOutFileName in
  let wiggle := first_wiggle aFileName1 aFileName2 in
  let obj3 := read aFileName3 in
  let graph3 := computeCollisionGraph obj3 in
  repaired r = snd (after_passes (length (passes r)) wiggle obj3 graph3) /\
  forall i c, passes r !! i = Some c ->
    c = numCorrections (fst (after_passes (S i) wiggle obj3 graph3)).
Proof.
  intros Hok r wiggle obj3 graph3. subst r.
  rewrite fixVariation_cases, Hok. simpl negb. cbv iota.
  pose proof (wiggle_loop_after_passes 128 graph3 wiggle obj3) as H.
  unfold wiggled. fold obj3 graph3. fold (first_wiggle aFileName1 aFileName2).
  fold wiggle.
  assert (Hrev : revalidates aFileName1 aFileName2 aFileName3 = true \/
                 revalidates aFileName1 aFileName2 aFileName3 = false)
    by (destruct (revalidates _ _ _); auto).
  destruct (wiggle_loop 128 wiggle obj3 graph3) as [[w o] tr].
  destruct H as [Hend Hnth].
  assert (Ho : o = snd (after_passes (length tr) wiggle obj3 graph3))
    by now rewrite <- Hend.
  destruct Hrev as [-> | ->]; simpl; split; assumption.
Qed.

End PassFacts.

Lemma repaired_is_iterated_pass_witness :
  repaired (TwoParts.repair "5.obj" "6.obj" "3.obj" "out.obj") =
  snd (after_passes (B := TwoParts.backend) 4 0 3 (TwoParts.collision_graph 3)).
Proof.
  destruct (repaired_is_iterated_pass (B := TwoParts.backend)
              (TwoParts.file "5.obj") (TwoParts.file "6.obj")
              (TwoParts.file "3.obj") (TwoParts.file "out.obj") eq_refl)
    as [Hend _].
  exact Hend.
Defined.
